(** * video-sprite-generator: the pipeline of [app.py]

    A shallow embedding of the thumbnail-sprite pipeline (frame sampling,
    sprite composition, WebVTT cue generation, the [/generate] job and the
    asset route) together with the properties of its timing and grid
    arithmetic, its cleanup and its asset lookup.

    Numbers.  Python [int] is [Z], and a Python [float] is the rational
    it denotes.  The pipeline is first read in exact arithmetic: [/] is
    exact division, [math.ceil] and [math.floor] are [Qceiling] and
    [Qfloor], [//] and [%] are floor division and its remainder, [int()]
    truncates toward zero.  The module [Binary64] reads the arithmetic of
    the frame sampler a second time, as the interpreter performs it on
    doubles, every operation rounded; what is said about the digits of a
    seek string is said there. *)

From Stdlib Require Import ZArith QArith Qround Qminmax Qpower Lia Lqa.
From Stdlib Require Floats.
From Stdlib Require Import Strings.String Strings.Ascii Numbers.DecimalString Numbers.DecimalN.
From stdpp Require Import gmap strings list fin_maps sorting.

Open Scope string_scope.
Open Scope Z_scope.

(** ** Python numeric primitives *)

Module Py.

(** [int(x)] on a float: truncation toward zero. *)
Definition int (x : Q) : Z := Z.quot (Qnum x) (Zpos (Qden x)).

Definition ceil (x : Q) : Z := Qceiling x.
Definition floor (x : Q) : Z := Qfloor x.

(** [x // y] on floats is the floor of the quotient, as a float. *)
Definition floordiv (x y : Q) : Q := inject_Z (Qfloor (x / y)).

(** [x % y]: the remainder of floor division, with the sign of [y]. *)
Definition mod_ (x y : Q) : Q := (x - y * inject_Z (Qfloor (x / y)))%Q.

(** [min(a, b)] keeps [a] unless [b < a]. *)
Definition min (a b : Q) : Q :=
  match (b ?= a)%Q with Lt => b | _ => a end.

(** [max(a, b)] on ints keeps [a] unless [b > a]. *)
Definition max (a b : Z) : Z := if a <? b then b else a.

(** [range(n)]: empty when [n <= 0]. *)
Definition range (n : Z) : list nat := seq 0 (Z.to_nat n).

(** Decimal digits of a natural number, as [str(n)] prints them. *)
Definition str_N (n : N) : string := NilZero.string_of_uint (N.to_uint n).

Fixpoint zeros (k : nat) : string :=
  match k with
  | O => EmptyString
  | S k' => String "0"%char (zeros k')
  end.

Definition zfill (width : nat) (digits : string) : string :=
  zeros (width - String.length digits) ++ digits.

(** [format(n, "0<width>")]: sign-aware zero padding, the sign counts
    in the width. *)
Definition format0 (width : nat) (n : Z) : string :=
  if n <? 0
  then String "-"%char (zfill (width - 1) (str_N (Z.abs_N n)))
  else zfill width (str_N (Z.to_N n)).

End Py.

(** ** Configuration: the module-level constants of [app.py] *)

Record config := Config {
  THUMB_WIDTH : Z;
  THUMB_HEIGHT : Z;
  THUMBS_PER_ROW : Z;
  THUMBNAIL_INTERVAL : Q
}.

Definition app_config : config :=
  {| THUMB_WIDTH := 160;
     THUMB_HEIGHT := 90;
     THUMBS_PER_ROW := 10;
     THUMBNAIL_INTERVAL := 5 |}.

Definition UPLOAD_FOLDER : string := "temp_videos".
Definition THUMBNAIL_FOLDER : string := "temp_thumbnails".
Definition SPRITE_FILENAME : string := "sprite.jpg".
Definition VTT_FILENAME : string := "sprite.vtt".

(** The slack [0.1] subtracted from the duration when clamping a seek. *)
Definition seek_epsilon : Q := 1 # 10.

(** The cap [86399.999] applied in [create_vtt_file]. *)
Definition VTT_MAX_SECONDS : Q := 86399999 # 1000.

(** ** Timestamp arithmetic shared by the sampler and the cue builder *)

Record hms := Hms {
  hms_hours : Z;
  hms_minutes : Z;
  hms_seconds : Z;
  hms_millis : Z
}.

(** The four fields computed from a time in seconds
    ([generate_individual_thumbnails], lines 106-109; [create_vtt_file],
    lines 226-234). *)
Definition hms_of (t : Q) : hms :=
  {| hms_hours := Py.int (Py.floordiv t 3600);
     hms_minutes := Py.int (Py.floordiv (Py.mod_ t 3600) 60);
     hms_seconds := Py.int (Py.mod_ t 60);
     hms_millis := Py.int ((t - inject_Z (Py.floor t)) * 1000)%Q |}.

(** [f"{h:02}:{m:02}:{s:02}.{ms:03}"] *)
Definition hms_str (t : hms) : string :=
  Py.format0 2 (hms_hours t) ++ ":" ++ Py.format0 2 (hms_minutes t) ++ ":"
  ++ Py.format0 2 (hms_seconds t) ++ "." ++ Py.format0 3 (hms_millis t).

Definition timestamp_str (t : Q) : string := hms_str (hms_of t).

(** ** Frame sampler: the arithmetic of [generate_individual_thumbnails] *)

Definition num_thumbnails (cfg : config) (duration : Q) : Z :=
  Py.ceil (duration / THUMBNAIL_INTERVAL cfg).

Definition actual_timestamp (cfg : config) (duration : Q) (i : nat) : Q :=
  Py.min (inject_Z (Z.of_nat i) * THUMBNAIL_INTERVAL cfg) (duration - seek_epsilon).

(** [f"thumb_{i:04d}.jpg"] *)
Definition thumb_filename (i : nat) : string :=
  "thumb_" ++ Py.format0 4 (Z.of_nat i) ++ ".jpg".

(** The timestamps the loop asks the extraction tool for, in loop order. *)
Definition requested_timestamps (cfg : config) (duration : Q) : list Q :=
  map (actual_timestamp cfg duration) (Py.range (num_thumbnails cfg duration)).

(** ** Sprite composer and cue builder: grid and timing arithmetic *)

(** [max(1, math.ceil(num_thumbnails / THUMBS_PER_ROW))]
    ([create_sprite_image], line 158). *)
Definition num_rows (cfg : config) (n : nat) : Z :=
  Py.max 1 (Py.ceil (inject_Z (Z.of_nat n) / inject_Z (THUMBS_PER_ROW cfg))).

Record cue_entry := Cue {
  start_time_sec : Q;
  end_time_sec : Q;
  cue_col : Z;
  cue_row : Z;
  cue_x : Z;
  cue_y : Z
}.

(** One iteration of the loop of [create_vtt_file] (lines 218-244). *)
Definition cue_of (cfg : config) (interval : Q) (i : nat) : cue_entry :=
  let start := (inject_Z (Z.of_nat i) * interval)%Q in
  let col := Z.of_nat i mod THUMBS_PER_ROW cfg in
  let row := Z.of_nat i / THUMBS_PER_ROW cfg in
  {| start_time_sec := start;
     end_time_sec := Py.min (start + interval) VTT_MAX_SECONDS;
     cue_col := col;
     cue_row := row;
     cue_x := col * THUMB_WIDTH cfg;
     cue_y := row * THUMB_HEIGHT cfg |}.

Definition cue_entries (cfg : config) (n : nat) (interval : Q) : list cue_entry :=
  map (cue_of cfg interval) (Py.range (Z.of_nat n)).

(** The interval chosen by [generate] for the cue file (lines 290-296). *)
Definition thumbnail_interval_for_vtt (cfg : config) (duration : Q) : Q :=
  match (duration ?= THUMBNAIL_INTERVAL cfg)%Q with
  | Lt =>
      match (0 ?= duration)%Q with
      | Lt => inject_Z (Py.max 1 (Py.floor (duration / 2)))
      | _ => 1%Q
      end
  | _ => THUMBNAIL_INTERVAL cfg
  end.

(** ** Paths and the file system

    A path is the list of its components, relative to the working
    directory of the process; [os.path.join] of components that contain no
    separator is concatenation.  The file system maps the canonical paths
    that exist to what lives there. *)

Abbreviation path := (list string).

Inductive content :=
  | Binary (size : N)
  | Text (body : string).

Inductive node :=
  | Dir
  | File (c : content).

Definition content_size (c : content) : N :=
  match c with
  | Binary n => n
  | Text body => N.of_nat (String.length body)
  end.

Definition LF : string := String "010"%char EmptyString.

Definition path_str (p : path) : string := String.concat "/" p.

Definition dirname (p : path) : path := removelast p.

(** [os.path.relpath(p, start)] on canonical relative paths: drop the
    common prefix, climb out of what is left of [start]. *)
Fixpoint relpath (p start : path) : path :=
  match p, start with
  | x :: p', y :: start' =>
      if String.eqb x y then relpath p' start'
      else (repeat ".." (List.length start) ++ p)%list
  | _, _ => (repeat ".." (List.length start) ++ p)%list
  end.

(** [sorted(paths)]: a stable sort of the path strings by code point. *)
Fixpoint insert_sorted (p : path) (l : list path) : list path :=
  match l with
  | [] => [p]
  | q :: l' =>
      if String.ltb (path_str q) (path_str p)
      then q :: insert_sorted p l'
      else p :: q :: l'
  end.

Definition sorted (l : list path) : list path := fold_right insert_sorted [] l.

(** Invocations of the outside world, in the order they are made. *)
Inductive call :=
  | HttpGet (url : string) (output : path)
  | Ffprobe (video : path)
  | FfmpegExtract (ss : string) (input output : path)
  | FfmpegTile (inputs : list string) (columns rows : Z) (output : path).

Record world := World {
  files : gmap path node;
  calls : list call
}.

Definition os_path_exists (p : path) (w : world) : bool :=
  match files w !! p with Some _ => true | None => false end.

Definition os_path_getsize (p : path) (w : world) : N :=
  match files w !! p with Some (File c) => content_size c | _ => 0%N end.

Definition write_file (p : path) (c : content) (w : world) : world :=
  {| files := <[p := File c]> (files w); calls := calls w |}.

Definition record_call (c : call) (w : world) : world :=
  {| files := files w; calls := (calls w ++ [c])%list |}.

(** What a subprocess run leaves behind at its output path: nothing, or a
    file of some size (possibly zero). *)
Definition leave_output (p : path) (produced : option N) (w : world) : world :=
  match produced with
  | Some n => write_file p (Binary n) w
  | None => w
  end.

(** [os.makedirs(p, exist_ok=True)]: every missing prefix becomes a
    directory.  What already exists is left alone; the job directory is
    named by a fresh uuid, so no file stands in its place. *)
Fixpoint makedirs_from (base p : path) (w : world) : world :=
  match p with
  | [] => w
  | x :: p' =>
      let here := (base ++ [x])%list in
      let w' := if os_path_exists here w then w
                else {| files := <[here := Dir]> (files w); calls := calls w |} in
      makedirs_from here p' w'
  end.

Definition os_makedirs (p : path) (w : world) : world := makedirs_from [] p w.

(** ** The environment: how the outside world answers *)

Inductive download_outcome :=
  | Downloaded (size : N)
  | DownloadFailed (partial : option N).

(** A subprocess run: did [subprocess.run] raise (non-zero exit, timeout,
    missing tool), and what is at the output path afterwards. *)
Record run_outcome := Run {
  raised : bool;
  produced : option N
}.

Record env := Env {
  download_result : download_outcome;
  probe_result : option Q;
  extract_result : nat -> run_outcome;
  tile_result : run_outcome;
  write_fails : path -> bool;
  partial_write : path -> option string;
  remove_fails : path -> bool
}.

(** [os.remove(p)] inside [try ... except OSError]: a failure is logged
    and the file stays. *)
Definition os_remove (e : env) (p : path) (w : world) : world :=
  if remove_fails e p then w
  else {| files := delete p (files w); calls := calls w |}.

Definition remove_if_exists (e : env) (p : path) (w : world) : world :=
  if os_path_exists p w then os_remove e p w else w.

(** ** The stages *)

(** [download_video]: [True] with the file written, or [False], possibly
    after part of the body was written. *)
Definition download_video (e : env) (video_url : string) (output_path : path)
    (w : world) : world * bool :=
  let w := record_call (HttpGet video_url output_path) w in
  match download_result e with
  | Downloaded n => (write_file output_path (Binary n) w, true)
  | DownloadFailed partial => (leave_output output_path partial w, false)
  end.

(** [get_video_duration]: the parsed duration, or [None]. *)
Definition get_video_duration (e : env) (video_path : path) (w : world)
    : world * option Q :=
  (record_call (Ffprobe video_path) w, probe_result e).

(** One iteration of the loop of [generate_individual_thumbnails]. *)
Definition extract_frame (cfg : config) (e : env) (video_path output_dir : path)
    (duration : Q) (i : nat) (st : world * list path) : world * list path :=
  let '(w, thumbnail_paths) := st in
  let timestamp_str := timestamp_str (actual_timestamp cfg duration i) in
  let thumb_path := (output_dir ++ [thumb_filename i])%list in
  let o := extract_result e i in
  let w := record_call (FfmpegExtract timestamp_str video_path thumb_path) w in
  let w := leave_output thumb_path (produced o) w in
  if raised o then (w, thumbnail_paths)
  else if os_path_exists thumb_path w && (0 <? os_path_getsize thumb_path w)%N
  then (w, (thumbnail_paths ++ [thumb_path])%list)
  else (w, thumbnail_paths).

(** [generate_individual_thumbnails]; [None] is the [ZeroDivisionError]
    of line 96 when the interval is zero. *)
Definition generate_individual_thumbnails (cfg : config) (e : env)
    (video_path output_dir : path) (duration : Q) (w : world)
    : option (world * list path) :=
  if Qeq_bool (THUMBNAIL_INTERVAL cfg) 0 then None
  else Some (fold_left
               (fun st i => extract_frame cfg e video_path output_dir duration i st)
               (Py.range (num_thumbnails cfg duration))
               (w, [])).

(** The entries of [input_thumbs.txt], in the order they are written. *)
Definition manifest_entries (thumbnail_paths : list path) (input_list_dir : path)
    : list string :=
  map (fun p => path_str (relpath p input_list_dir)) (sorted thumbnail_paths).

Definition manifest_text (entries : list string) : string :=
  String.concat "" (map (fun r => "file '" ++ r ++ "'" ++ LF) entries).

(** [create_sprite_image]; [None] is the [ZeroDivisionError] of line 158
    (outside the [try]) when there are no columns. *)
Definition create_sprite_image (cfg : config) (e : env)
    (thumbnail_paths : list path) (output_path : path) (w : world)
    : option (world * bool) :=
  match thumbnail_paths with
  | [] => Some (w, false)
  | _ :: _ =>
      if THUMBS_PER_ROW cfg =? 0 then None
      else
        let rows := num_rows cfg (List.length thumbnail_paths) in
        let input_list_path := (dirname output_path ++ ["input_thumbs.txt"])%list in
        let input_list_dir := dirname input_list_path in
        let '(w, ok) :=
          if write_fails e input_list_path then (w, false)
          else
            let entries := manifest_entries thumbnail_paths input_list_dir in
            let w := write_file input_list_path (Text (manifest_text entries)) w in
            let w := record_call
                       (FfmpegTile entries (THUMBS_PER_ROW cfg) rows output_path) w in
            let w := leave_output output_path (produced (tile_result e)) w in
            (w, negb (raised (tile_result e))) in
        Some (remove_if_exists e input_list_path w, ok)
  end.

(** One cue block of the WebVTT file (lines 246-248). *)
Definition cue_text (cfg : config) (sprite_url_path : string) (c : cue_entry) : string :=
  timestamp_str (start_time_sec c) ++ " --> " ++ timestamp_str (end_time_sec c) ++ LF
  ++ sprite_url_path ++ "#xywh=" ++ Py.format0 0 (cue_x c) ++ "," ++ Py.format0 0 (cue_y c)
  ++ "," ++ Py.format0 0 (THUMB_WIDTH cfg) ++ "," ++ Py.format0 0 (THUMB_HEIGHT cfg)
  ++ LF ++ LF.

Definition vtt_text (cfg : config) (n : nat) (interval : Q) (sprite_url_path : string)
    : string :=
  "WEBVTT" ++ LF ++ LF
  ++ String.concat "" (map (cue_text cfg sprite_url_path) (cue_entries cfg n interval)).

(** What a [with open(p, 'w')] block that raises leaves at [p]: nothing
    new when [open] itself fails, and otherwise the file it created, with
    the text that reached it before a later write or the close raised. *)
Definition leave_partial (p : path) (written : option string) (w : world) : world :=
  match written with
  | Some body => write_file p (Text body) w
  | None => w
  end.

(** [create_vtt_file].  The [except] clause turns every failure into
    [False] and removes nothing; with no columns the first iteration
    divides by zero after the header was written. *)
Definition create_vtt_file (cfg : config) (e : env) (output_dir : path)
    (n : nat) (interval : Q) (sprite_url_path : string) (w : world) : world * bool :=
  let vtt_path := (output_dir ++ [VTT_FILENAME])%list in
  if write_fails e vtt_path
  then (leave_partial vtt_path (partial_write e vtt_path) w, false)
  else if (THUMBS_PER_ROW cfg =? 0) && (0 <? n)%nat
  then (write_file vtt_path (Text ("WEBVTT" ++ LF ++ LF)) w, false)
  else (write_file vtt_path (Text (vtt_text cfg n interval sprite_url_path)) w, true).

(** ** The job: [generate] *)

Inductive response :=
  | Success (sprite_url vtt_url : string)
  | Error (status : Z) (message : string).

Definition job_dir (job_id : string) : path := [THUMBNAIL_FOLDER; job_id].

Definition job_video_path (job_id : string) : path :=
  [UPLOAD_FOLDER; "input_" ++ job_id ++ ".mp4"].

Definition asset_url (job_id filename : string) : string :=
  "/thumbnails/" ++ job_id ++ "/" ++ filename.

(** The answer of the [except Exception] handler of [generate]
    (line 330), with the text of the exception. *)
Definition unexpected (exception : string) : response :=
  Error 500 ("An unexpected server error occurred: " ++ exception).

(** The [try] block of [generate] (lines 281-326): the world it leaves,
    the value of [thumbnail_paths] at that point, and the response. *)
Definition generate_try (cfg : config) (e : env) (video_url job_id : string)
    (w : world) : world * list path * response :=
  let temp_job_dir := job_dir job_id in
  let video_path := job_video_path job_id in
  match download_video e video_url video_path w with
  | (w, false) =>
      (w, [], Error 500 "Failed to download video. Please check the URL or network access.")
  | (w, true) =>
      let '(w, duration) := get_video_duration e video_path w in
      let bad_duration :=
        Error 500 "Could not get valid video duration. Video might be corrupted or empty." in
      match duration with
      | None => (w, [], bad_duration)
      | Some duration =>
          if Qle_bool duration 0 then (w, [], bad_duration)
          else
            let interval := thumbnail_interval_for_vtt cfg duration in
            match generate_individual_thumbnails cfg e video_path temp_job_dir duration w with
            | None => (w, [], unexpected "float division by zero")
            | Some (w, []) =>
                (w, [], Error 500 "Failed to generate any valid thumbnails. Video might be unreadable or too short for extraction.")
            | Some (w, thumbnail_paths) =>
                let sprite_output_path := (temp_job_dir ++ [SPRITE_FILENAME])%list in
                match create_sprite_image cfg e thumbnail_paths sprite_output_path w with
                | None => (w, thumbnail_paths, unexpected "division by zero")
                | Some (w, false) =>
                    (w, thumbnail_paths, Error 500 "Failed to create sprite image. Check Render logs for FFmpeg details.")
                | Some (w, true) =>
                    let sprite_public_url := asset_url job_id SPRITE_FILENAME in
                    match create_vtt_file cfg e temp_job_dir (List.length thumbnail_paths)
                            interval sprite_public_url w with
                    | (w, false) => (w, thumbnail_paths, Error 500 "Failed to create VTT file.")
                    | (w, true) =>
                        (w, thumbnail_paths,
                         Success (asset_url job_id SPRITE_FILENAME)
                                 (asset_url job_id VTT_FILENAME))
                    end
                end
            end
      end
  end.

(** The [finally] block (lines 331-347). *)
Definition generate_finally (e : env) (video_path : path)
    (thumbnail_paths : list path) (w : world) : world :=
  let w := remove_if_exists e video_path w in
  fold_left (fun w p => remove_if_exists e p w) thumbnail_paths w.

(** [generate]: [video_url] is the form field, [job_id] the fresh
    [uuid4] string. *)
Definition generate (cfg : config) (e : env) (video_url : option string)
    (job_id : string) (w : world) : world * response :=
  match video_url with
  | None | Some "" => (w, Error 400 "Video URL is required.")
  | Some video_url =>
      let w := os_makedirs (job_dir job_id) w in
      let '(w, thumbnail_paths, resp) := generate_try cfg e video_url job_id w in
      (generate_finally e (job_video_path job_id) thumbnail_paths w, resp)
  end.

(** ** The asset route: [serve_thumbnail_assets]

    In [generate] every path is built from constants and the job's uuid, so
    it is canonical and names its own place in the file system.  The route
    receives [job_id] and [filename] from the request (the URL converter
    only guarantees non-empty, separator-free segments), so here the walk
    the operating system performs is modelled: ["."] stays, [".."] climbs,
    and every component stepped through must be a directory.  The working
    directory is the top of the modelled tree. *)

Definition node_at (fsys : gmap path node) (p : path) : option node :=
  match p with
  | [] => Some Dir
  | _ => fsys !! p
  end.

Fixpoint resolve_from (fsys : gmap path node) (cur p : path) : option path :=
  match p with
  | [] => Some cur
  | x :: p' =>
      match node_at fsys cur with
      | Some Dir =>
          if String.eqb x "." then resolve_from fsys cur p'
          else if String.eqb x ".." then resolve_from fsys (removelast cur) p'
          else resolve_from fsys (cur ++ [x])%list p'
      | _ => None
      end
  end.

(** Where a path leads and what is there, if anything. *)
Definition os_stat (fsys : gmap path node) (p : path) : option (path * node) :=
  match resolve_from fsys [] p with
  | Some target =>
      match node_at fsys target with
      | Some n => Some (target, n)
      | None => None
      end
  | None => None
  end.

Definition stat_exists (p : path) (w : world) : bool :=
  match os_stat (files w) p with Some _ => true | None => false end.

Definition stat_isfile (p : path) (w : world) : bool :=
  match os_stat (files w) p with Some (_, File _) => true | _ => false end.

Inductive asset_response :=
  | NotFound (status : Z)
  | SendFile (target : path) (c : content).

(** [send_file(p)]: the file the path leads to. *)
Definition send_file (p : path) (w : world) : asset_response :=
  match os_stat (files w) p with
  | Some (target, File c) => SendFile target c
  | _ => NotFound 404
  end.

Definition serve_thumbnail_assets (job_id filename : string) (w : world)
    : asset_response :=
  let full_path := [THUMBNAIL_FOLDER; job_id; filename] in
  if negb (stat_exists full_path w) || negb (stat_isfile full_path w)
  then NotFound 404
  else send_file full_path w.

(** A served file lies in the workspace of job [job_id] when its place is
    below [THUMBNAIL_FOLDER/job_id]. *)
Definition in_workspace (job_id : string) (target : path) : Prop :=
  exists rest, target = (job_dir job_id ++ rest)%list.

(** ** The frame sampler on IEEE doubles

    The same lines of [generate_individual_thumbnails], with the
    arithmetic as the interpreter performs it on [float].  A double is
    the rational it denotes, and [fl] rounds an exact result to the
    nearest double: 53 significant bits, ties to even, gradual underflow
    down to [2^-1074].  Infinities, NaN and the sign of zero are not
    represented: no duration that the probe prints brings a result to
    [2^1024]. *)

Module Binary64.

Definition pow2 (e : Z) : Q := 2 ^ e.

(** The exponent [l] with [2^l <= x < 2^(l+1)], for [x > 0]. *)
Definition ilog2 (x : Q) : Z :=
  let l := Z.log2 (Qnum x) - Z.log2 (Zpos (Qden x)) in
  if Qle_bool (pow2 l) x then l else l - 1.

(** Rounding to the nearest integer, ties to even. *)
Definition rne (x : Q) : Z :=
  let f := Qfloor x in
  match (x - inject_Z f ?= 1 # 2)%Q with
  | Lt => f
  | Gt => f + 1
  | Eq => if Z.even f then f else f + 1
  end.

(** The multiple of [2^e] nearest to [x]. *)
Definition round_at (e : Z) (x : Q) : Q := (inject_Z (rne (x / pow2 e)) * pow2 e)%Q.

(** The exponent of the last place of the doubles around [x > 0]. *)
Definition fexp (x : Q) : Z := Z.max (ilog2 x - 52) (-1074).

(** The double nearest to [x]. *)
Definition fl (x : Q) : Q :=
  match (x ?= 0)%Q with
  | Gt => Qred (round_at (fexp x) x)
  | Lt => Qred (- round_at (fexp (- x)) (- x))
  | Eq => 0%Q
  end.

(** C's [fmod]: the exact remainder of the truncated quotient. *)
Definition fmod (x y : Q) : Q := (x - y * inject_Z (Py.int (x / y)))%Q.

Definition differ_in_sign (a b : Q) : bool :=
  xorb (negb (Qle_bool 0 a)) (negb (Qle_bool 0 b)).

(** [x % y] on floats: [fmod], moved by [y] when its sign is not the
    sign of [y]. *)
Definition mod_ (x y : Q) : Q :=
  let m := fmod x y in
  if negb (Qeq_bool m 0) && differ_in_sign y m then fl (m + y) else m.

(** [x // y] on floats: the quotient of [x - fmod(x, y)] by [y], one less
    when the remainder was moved, snapped to the integer nearest to it. *)
Definition floordiv (x y : Q) : Q :=
  let m := fmod x y in
  let div := fl (fl (x - m) / y) in
  let div := if negb (Qeq_bool m 0) && differ_in_sign y m then fl (div - 1) else div in
  if Qeq_bool div 0 then 0%Q
  else
    let f := inject_Z (Qfloor div) in
    if negb (Qle_bool (fl (div - f)) (1 # 2)) then fl (f + 1) else f.

(** The literal [0.1]. *)
Definition seek_epsilon : Q := fl (1 # 10).

(** Lines 106-109. *)
Definition hms_of (t : Q) : hms :=
  {| hms_hours := Py.int (floordiv t 3600);
     hms_minutes := Py.int (floordiv (mod_ t 3600) 60);
     hms_seconds := Py.int (mod_ t 60);
     hms_millis := Py.int (fl (fl (t - inject_Z (Py.floor t)) * 1000)) |}.

Definition timestamp_str (t : Q) : string := hms_str (hms_of t).

(** Line 96. *)
Definition num_thumbnails (cfg : config) (duration : Q) : Z :=
  Py.ceil (fl (duration / THUMBNAIL_INTERVAL cfg)).

(** Line 104. *)
Definition actual_timestamp (cfg : config) (duration : Q) (i : nat) : Q :=
  Py.min (fl (inject_Z (Z.of_nat i) * THUMBNAIL_INTERVAL cfg))
         (fl (duration - seek_epsilon)).

(** One iteration of the loop (lines 103-139). *)
Definition extract_frame (cfg : config) (e : env) (video_path output_dir : path)
    (duration : Q) (i : nat) (st : world * list path) : world * list path :=
  let '(w, thumbnail_paths) := st in
  let timestamp_str := timestamp_str (actual_timestamp cfg duration i) in
  let thumb_path := (output_dir ++ [thumb_filename i])%list in
  let o := extract_result e i in
  let w := record_call (FfmpegExtract timestamp_str video_path thumb_path) w in
  let w := leave_output thumb_path (produced o) w in
  if raised o then (w, thumbnail_paths)
  else if os_path_exists thumb_path w && (0 <? os_path_getsize thumb_path w)%N
  then (w, (thumbnail_paths ++ [thumb_path])%list)
  else (w, thumbnail_paths).

(** [generate_individual_thumbnails]; [None] is the [ZeroDivisionError]
    of line 96 when the interval is zero. *)
Definition generate_individual_thumbnails (cfg : config) (e : env)
    (video_path output_dir : path) (duration : Q) (w : world)
    : option (world * list path) :=
  if Qeq_bool (THUMBNAIL_INTERVAL cfg) 0 then None
  else Some (fold_left
               (fun st i => extract_frame cfg e video_path output_dir duration i st)
               (Py.range (num_thumbnails cfg duration))
               (w, [])).

End Binary64.

(** The doubles of the machine, for comparison: the rational that a
    primitive float denotes, and the float of a natural number below
    [2^53]. *)
Definition double_value (f : PrimFloat.float) : option Q :=
  match FloatOps.Prim2SF f with
  | SpecFloat.S754_zero _ => Some 0%Q
  | SpecFloat.S754_finite s m e =>
      Some (Qred ((if s then -1 else 1) * inject_Z (Zpos m) * Binary64.pow2 e))%Q
  | _ => None
  end.

Definition machine (n : Z) : PrimFloat.float :=
  PrimFloat.of_uint63 (Uint63.of_Z n).

(** ** Notions used in the statements *)

(** The place of frame [i] in the output directory (line 113). *)
Definition thumb_path (output_dir : path) (i : nat) : path :=
  (output_dir ++ [thumb_filename i])%list.

(** The request the sampling loop makes for frame [i] (lines 115-123). *)
Definition extract_call (cfg : config) (video_path output_dir : path)
    (duration : Q) (i : nat) : call :=
  FfmpegExtract (timestamp_str (actual_timestamp cfg duration i)) video_path
    (output_dir ++ [thumb_filename i])%list.

(** Whether the loop keeps the frame of an extraction run that wrote to a
    fresh output path: the run did not raise and left a non-empty file
    (lines 125-129). *)
Definition frame_survives (o : run_outcome) : bool :=
  negb (raised o)
  && match produced o with Some n => (0 <? n)%N | None => false end.

(** The frame list handed to the tiling tool by the last request made. *)
Definition tile_inputs (w : world) : list string :=
  match last (calls w) with
  | Some (FfmpegTile inputs _ _ _) => inputs
  | _ => []
  end.

(** [str(n)] of an integer, in the decimal notation of the Standard
    Library. *)
Definition decimal (n : Z) : string := NilZero.string_of_int (Z.to_int n).

(** The second line of a cue: the sprite and the rectangle cut out of it. *)
Definition xywh_line (sprite_url_path : string) (x y width height : Z) : string :=
  sprite_url_path ++ "#xywh=" ++ decimal x ++ "," ++ decimal y ++ ","
  ++ decimal width ++ "," ++ decimal height.

(** The cell (column, row) that holds tile [i] when tiles are laid out row
    by row, [columns] to a row, as the tiling tool does with its inputs. *)
Definition tile_cell (columns : Z) (i : nat) : Z * Z :=
  (Z.of_nat i mod columns, Z.of_nat i / columns).

(** The world in which sampling starts: the video downloaded and probed. *)
Definition probed_world (url job_id : string) (n : N) (w : world) : world :=
  record_call (Ffprobe (job_video_path job_id))
    (write_file (job_video_path job_id) (Binary n)
       (record_call (HttpGet url (job_video_path job_id)) w)).

(** ** The shape of a zero-padded [HH:MM:SS.mmm] timestamp *)

Inductive char_class :=
  | Digit
  | Exactly (c : ascii).

Definition is_digit (c : ascii) : bool :=
  (Ascii.leb "0" c && Ascii.leb c "9")%char.

Definition in_class (k : char_class) (c : ascii) : bool :=
  match k with
  | Digit => is_digit c
  | Exactly c' => Ascii.eqb c c'
  end.

Fixpoint matches_pattern (pat : list char_class) (s : string) : bool :=
  match pat, s with
  | [], EmptyString => true
  | k :: pat', String c s' => in_class k c && matches_pattern pat' s'
  | _, _ => false
  end.

Definition hms_pattern : list char_class :=
  [Digit; Digit; Exactly ":"; Digit; Digit; Exactly ":";
   Digit; Digit; Exactly "."; Digit; Digit; Digit]%char.

Definition is_hms_string (s : string) : bool := matches_pattern hms_pattern s.

(** ** Sample worlds *)

(** The state after start-up: the two temporary folders exist, next to the
    application's own source file. *)
Definition startup_files : gmap path node :=
  <[ [UPLOAD_FOLDER] := Dir ]>
  (<[ [THUMBNAIL_FOLDER] := Dir ]>
  (<[ ["app.py"] := File (Binary 14000) ]> ∅)).

Definition startup : world := {| files := startup_files; calls := [] |}.

(** An environment in which every operation succeeds. *)
Definition all_ok (duration : Q) : env :=
  {| download_result := Downloaded 1000;
     probe_result := Some duration;
     extract_result := fun _ => Run false (Some 2048%N);
     tile_result := Run false (Some 9000%N);
     write_fails := fun _ => false;
     partial_write := fun _ => None;
     remove_fails := fun _ => false |}.

(** An environment in which every extraction exits cleanly but leaves an
    empty file. *)
Definition empty_frames (duration : Q) : env :=
  {| download_result := Downloaded 1000;
     probe_result := Some duration;
     extract_result := fun _ => Run false (Some 0%N);
     tile_result := Run false (Some 9000%N);
     write_fails := fun _ => false;
     partial_write := fun _ => None;
     remove_fails := fun _ => false |}.

(** An environment in which the last of the five frames of a 23-second
    video comes out empty and the others are fine. *)
Definition last_frame_empty : env :=
  {| download_result := Downloaded 1000;
     probe_result := Some 23%Q;
     extract_result := fun i => Run false (Some (if (i =? 4)%nat then 0%N else 2048%N));
     tile_result := Run false (Some 9000%N);
     write_fails := fun _ => false;
     partial_write := fun _ => None;
     remove_fails := fun _ => false |}.

(** An environment in which the download breaks off after 512 bytes, and
    one in which the probe gives no duration. *)
Definition download_broken : env :=
  {| download_result := DownloadFailed (Some 512%N);
     probe_result := Some 23%Q;
     extract_result := fun _ => Run false (Some 2048%N);
     tile_result := Run false (Some 9000%N);
     write_fails := fun _ => false;
     partial_write := fun _ => None;
     remove_fails := fun _ => false |}.

Definition probe_broken : env :=
  {| download_result := Downloaded 1000;
     probe_result := None;
     extract_result := fun _ => Run false (Some 2048%N);
     tile_result := Run false (Some 9000%N);
     write_fails := fun _ => false;
     partial_write := fun _ => None;
     remove_fails := fun _ => false |}.

(** An environment in which the disk fills up while the cue file is
    written: the file is created and holds the header only. *)
Definition disk_fills_up : env :=
  {| download_result := Downloaded 1000;
     probe_result := Some 3%Q;
     extract_result := fun _ => Run false (Some 2048%N);
     tile_result := Run false (Some 9000%N);
     write_fails := fun p => String.eqb (path_str p) "temp_thumbnails/job/sprite.vtt";
     partial_write := fun _ => Some ("WEBVTT" ++ LF ++ LF);
     remove_fails := fun _ => false |}.

(** ** Auxiliaries of the proofs *)

(** Reading a zero-padded decimal back. *)
Definition decode_decimal (s : string) : option N :=
  option_map N.of_uint (NilEmpty.uint_of_string s).


(** The frame file name of index [z], as [thumb_filename] computes it;
    [all_from fuel z P] checks [P] on [z], [z + 1], ... ([fuel] of them). *)
Definition frame_name (z : Z) : string :=
  "thumb_" ++ Py.format0 4 z ++ ".jpg".

Fixpoint all_from (fuel : nat) (z : Z) (P : Z -> bool) : bool :=
  match fuel with
  | O => true
  | S fuel' => P z && all_from fuel' (z + 1) P
  end.

(** * Properties *)

(** ** The numeric primitives *)

Section PyFacts.

Local Open Scope Q_scope.

Lemma Py_min_spec (a b : Q) :
  (b < a /\ Py.min a b = b) \/ (a <= b /\ Py.min a b = a).
Proof.
  unfold Py.min. destruct (b ?= a) eqn:E.
  - right. split; [|reflexivity]. apply Qeq_alt in E. rewrite E. apply Qle_refl.
  - left. split; [|reflexivity]. now apply Qlt_alt.
  - right. split; [|reflexivity]. apply Qlt_le_weak. now apply Qgt_alt in E.
Qed.

Lemma Py_min_Qmin (a b : Q) : Py.min a b = Qmin a b.
Proof.
  unfold Py.min, Qmin, GenericMinMax.gmin.
  rewrite <- (Qcompare_antisym a b). now destruct (a ?= b).
Qed.

Lemma Py_min_le_l (a b : Q) : Py.min a b <= a.
Proof.
  destruct (Py_min_spec a b) as [[H ->]|[H ->]];
    [now apply Qlt_le_weak | apply Qle_refl].
Qed.

Lemma Py_min_le_r (a b : Q) : Py.min a b <= b.
Proof.
  destruct (Py_min_spec a b) as [[H ->]|[H ->]]; [apply Qle_refl | exact H].
Qed.

Lemma Py_max_Zmax (a b : Z) : Py.max a b = Z.max a b.
Proof. unfold Py.max. destruct (Z.ltb_spec a b); lia. Qed.

Lemma Py_int_inject_Z (z : Z) : Py.int (inject_Z z) = z.
Proof. unfold Py.int. simpl. apply Z.quot_1_r. Qed.

(** The floor is the one integer [z] with [z <= x < z + 1]. *)
Lemma Qfloor_unique (x : Q) (z : Z) :
  inject_Z z <= x -> x < inject_Z (z + 1) -> Qfloor x = z.
Proof.
  intros Hlo Hhi.
  assert (H1 : (z <= Qfloor x)%Z).
  { rewrite <- (Qfloor_Z z). now apply Qfloor_resp_le. }
  assert (H2 : (Qfloor x < z + 1)%Z).
  { rewrite Zlt_Qlt. eapply Qle_lt_trans; [apply Qfloor_le | exact Hhi]. }
  lia.
Qed.

(** The ceiling is the one integer [z] with [z - 1 < x <= z]. *)
Lemma Qceiling_unique (x : Q) (z : Z) :
  inject_Z (z - 1) < x -> x <= inject_Z z -> Qceiling x = z.
Proof.
  intros Hlo Hhi.
  assert (H1 : (Qceiling x <= z)%Z).
  { rewrite <- (Qceiling_Z z). now apply Qceiling_resp_le. }
  assert (H2 : (z - 1 < Qceiling x)%Z).
  { rewrite Zlt_Qlt. eapply Qlt_le_trans; [exact Hlo | apply Qle_ceiling]. }
  lia.
Qed.


Lemma Qdiv_pos (d k : Q) : 0 < d -> 0 < k -> 0 < d / k.
Proof.
  intros Hd Hk. apply Qlt_shift_div_l; [exact Hk|]. now rewrite Qmult_0_l.
Qed.

Lemma range_length (n : Z) : List.length (Py.range n) = Z.to_nat n.
Proof. unfold Py.range. apply length_seq. Qed.

Lemma range_lookup (n : Z) (i : nat) :
  (i < Z.to_nat n)%nat -> Py.range n !! i = Some i.
Proof. intros H. unfold Py.range. now rewrite lookup_seq_lt. Qed.

End PyFacts.

(** ** The frame sampler *)

Section Sampler.

Context (cfg : config) (e : env) (video_path output_dir : path) (duration : Q).

Lemma extract_frame_calls (i : nat) (st : world * list path) :
  calls (extract_frame cfg e video_path output_dir duration i st).1
  = (calls st.1 ++ [extract_call cfg video_path output_dir duration i])%list.
Proof.
  destruct st as [w acc]. unfold extract_frame, extract_call.
  destruct (raised (extract_result e i));
    [|match goal with |- context [if ?b then _ else _] => destruct b end];
    simpl; destruct (produced (extract_result e i)); reflexivity.
Qed.

Lemma sample_loop_calls (l : list nat) (st : world * list path) :
  calls (fold_left
           (fun st i => extract_frame cfg e video_path output_dir duration i st)
           l st).1
  = (calls st.1 ++ map (extract_call cfg video_path output_dir duration) l)%list.
Proof.
  revert st. induction l as [|i l IH]; intros st; simpl.
  - now rewrite app_nil_r.
  - rewrite IH, extract_frame_calls. now rewrite <- app_assoc.
Qed.

Lemma sampler_runs (w : world) :
  (0 < THUMBNAIL_INTERVAL cfg)%Q ->
  exists w' thumbnail_paths,
    generate_individual_thumbnails cfg e video_path output_dir duration w
    = Some (w', thumbnail_paths)
    /\ calls w'
       = (calls w ++ map (extract_call cfg video_path output_dir duration)
                         (Py.range (num_thumbnails cfg duration)))%list.
Proof.
  intros Hk. unfold generate_individual_thumbnails.
  destruct (Qeq_bool (THUMBNAIL_INTERVAL cfg) 0) eqn:E.
  - apply Qeq_bool_iff in E. rewrite E in Hk. discriminate Hk.
  - match goal with |- context [Some ?r] => destruct r as [w' ps] eqn:R end.
    exists w', ps. split; [reflexivity|].
    change w' with (w', ps).1. rewrite <- R. apply sample_loop_calls.
Qed.

End Sampler.

(** ** Durations below the seek slack *)

Lemma hours_of_small_negative (a : Q) :
  (- (1 # 10) < a)%Q -> (a < 0)%Q -> hms_hours (hms_of a) = -1.
Proof.
  intros Hlo Hhi. cbn [hms_hours hms_of]. unfold Py.floordiv.
  rewrite Py_int_inject_Z. apply Qfloor_unique.
  - apply Qle_shift_div_l; [reflexivity|]. change (inject_Z (-1)) with (-1)%Q. lra.
  - apply Qlt_shift_div_r; [reflexivity|]. change (inject_Z (-1 + 1)) with 0%Q. lra.
Qed.

(** C10.  For a duration [d] with [0 < d < 0.1] the sampler asks for
    exactly one frame ([ceil(d / 5) = 1]); its clamped position
    [min(0, d - 0.1)] is [d - 0.1], which is negative; the hours field
    computed from it is [-1], so the seek string starts with ["-1:"] and is
    not a zero-padded [HH:MM:SS.mmm] timestamp. *)
Theorem tiny_duration_negative_seek (e : env) (video_path output_dir : path)
    (d : Q) (w : world) :
  (0 < d)%Q -> (d < 1 # 10)%Q ->
  let t0 := actual_timestamp app_config d 0 in
  num_thumbnails app_config d = 1
  /\ requested_timestamps app_config d = [t0]
  /\ t0 = (d - (1 # 10))%Q
  /\ (t0 < 0)%Q
  /\ hms_hours (hms_of t0) = -1
  /\ (exists rest, timestamp_str t0 = "-1:" ++ rest)
  /\ is_hms_string (timestamp_str t0) = false
  /\ exists w' thumbnail_paths,
       generate_individual_thumbnails app_config e video_path output_dir d w
       = Some (w', thumbnail_paths)
       /\ calls w'
          = (calls w
             ++ [FfmpegExtract (timestamp_str t0) video_path
                   (output_dir ++ ["thumb_0000.jpg"])])%list.
Proof.
  intros Hd Hlt t0.
  assert (Hn : num_thumbnails app_config d = 1).
  { unfold num_thumbnails, Py.ceil. cbn [THUMBNAIL_INTERVAL app_config].
    apply Qceiling_unique.
    - change (inject_Z (1 - 1)) with 0%Q. now apply Qdiv_pos.
    - apply Qle_shift_div_r; [reflexivity|]. change (inject_Z 1) with 1%Q. lra. }
  assert (Ht : t0 = (d - (1 # 10))%Q).
  { subst t0. unfold actual_timestamp, seek_epsilon.
    destruct (Py_min_spec (inject_Z (Z.of_nat 0) * THUMBNAIL_INTERVAL app_config)
                          (d - (1 # 10))) as [[_ ->]|[H _]]; [reflexivity|].
    exfalso. change (inject_Z (Z.of_nat 0) * THUMBNAIL_INTERVAL app_config)%Q
      with (0 * 5)%Q in H. lra. }
  assert (Hneg : (t0 < 0)%Q) by (rewrite Ht; lra).
  assert (Hh : hms_hours (hms_of t0) = -1)
    by (apply hours_of_small_negative; [rewrite Ht; lra | exact Hneg]).
  assert (Hs : exists rest, timestamp_str t0 = "-1:" ++ rest).
  { unfold timestamp_str, hms_str. rewrite Hh. eexists.
    change (Py.format0 2 (-1)) with "-1". reflexivity. }
  repeat split; try assumption.
  - unfold requested_timestamps. now rewrite Hn.
  - destruct Hs as [rest ->]. reflexivity.
  - destruct (sampler_runs app_config e video_path output_dir d w eq_refl)
      as (w' & ps & Hrun & Hcalls).
    exists w', ps. split; [exact Hrun|]. rewrite Hcalls, Hn. reflexivity.
Qed.

Lemma tiny_duration_negative_seek_witness :
  (0 < 1 # 20)%Q /\ (1 # 20 < 1 # 10)%Q
  /\ timestamp_str (actual_timestamp app_config (1 # 20) 0) = "-1:59:59.950"
  /\ is_hms_string (timestamp_str (actual_timestamp app_config (1 # 20) 0)) = false.
Proof.
  split; [reflexivity|]. split; [reflexivity|]. split; [reflexivity|].
  exact (proj1 (proj2 (proj2 (proj2 (proj2 (proj2 (proj2
    (tiny_duration_negative_seek (all_ok (1 # 20)) ["v.mp4"] ["out"] (1 # 20)
       startup eq_refl eq_refl)))))))).
Defined.

(** ** The cue builder and the grid *)

Lemma string_append_assoc (a b c : string) : (a ++ b) ++ c = a ++ (b ++ c).
Proof.
  induction a as [|x a IH]; [reflexivity|].
  change (String x ((a ++ b) ++ c) = String x (a ++ (b ++ c))). now rewrite IH.
Qed.

Lemma cue_entries_length (cfg : config) (n : nat) (interval : Q) :
  List.length (cue_entries cfg n interval) = n.
Proof. unfold cue_entries. rewrite length_map, range_length. lia. Qed.

Lemma cue_entries_lookup (cfg : config) (n i : nat) (interval : Q) :
  (i < n)%nat -> cue_entries cfg n interval !! i = Some (cue_of cfg interval i).
Proof.
  intros Hi. unfold cue_entries.
  rewrite list_lookup_fmap, range_lookup by lia. reflexivity.
Qed.

Lemma num_rows_spec (cfg : config) (n : nat) :
  num_rows cfg n
  = Z.max 1 (Qceiling (inject_Z (Z.of_nat n) / inject_Z (THUMBS_PER_ROW cfg))).
Proof. unfold num_rows. apply Py_max_Zmax. Qed.

(** Position [i] of [n] falls in a row below [ceil(n / c)]. *)
Lemma row_below_ceiling (c : Z) (n i : nat) :
  0 < c -> (i < n)%nat ->
  Z.of_nat i / c < Qceiling (inject_Z (Z.of_nat n) / inject_Z c).
Proof.
  intros Hc Hi. rewrite Zlt_Qlt.
  assert (Hcq : (inject_Z 0 < inject_Z c)%Q) by (now rewrite <- Zlt_Qlt).
  eapply Qle_lt_trans; [rewrite Zdiv_Qdiv; apply Qfloor_le|].
  eapply Qlt_le_trans; [|apply Qle_ceiling].
  unfold Qdiv. apply Qmult_lt_compat_r; [now apply Qinv_lt_0_compat|].
  rewrite <- Zlt_Qlt. lia.
Qed.

Lemma remove_if_exists_calls (e : env) (p : path) (w : world) :
  calls (remove_if_exists e p w) = calls w.
Proof.
  unfold remove_if_exists, os_remove.
  destruct (os_path_exists p w); [destruct (remove_fails e p)|]; reflexivity.
Qed.

Lemma leave_output_calls (p : path) (o : option N) (w : world) :
  calls (leave_output p o w) = calls w.
Proof. destruct o; reflexivity. Qed.

(** What the composer does on a non-empty sequence when the manifest can
    be written: one tiling request, [THUMBS_PER_ROW] columns by [num_rows]
    rows, over the manifest entries. *)
Lemma create_sprite_image_call (cfg : config) (e : env) (thumbnail_paths : list path)
    (output_path : path) (w : world) :
  thumbnail_paths <> [] -> THUMBS_PER_ROW cfg <> 0 ->
  write_fails e (dirname output_path ++ ["input_thumbs.txt"])%list = false ->
  exists w',
    create_sprite_image cfg e thumbnail_paths output_path w
    = Some (w', negb (raised (tile_result e)))
    /\ calls w'
       = (calls w
          ++ [FfmpegTile
                (manifest_entries thumbnail_paths
                   (dirname (dirname output_path ++ ["input_thumbs.txt"])))
                (THUMBS_PER_ROW cfg) (num_rows cfg (List.length thumbnail_paths))
                output_path])%list.
Proof.
  intros Hne Hc Hw. unfold create_sprite_image.
  destruct thumbnail_paths as [|p ps]; [congruence|].
  apply Z.eqb_neq in Hc. rewrite Hc, Hw.
  eexists. split; [reflexivity|].
  now rewrite remove_if_exists_calls, leave_output_calls.
Qed.




(** [str(n)] as the cue builder prints a coordinate. *)
Lemma format0_0_decimal (z : Z) : Py.format0 0 z = decimal z.
Proof.
  unfold Py.format0, decimal, Py.zfill, Py.str_N.
  destruct z as [|p|p]; simpl; reflexivity.
Qed.

(** The text of one cue: the line of the two times, then the rectangle. *)
Lemma cue_text_lines (cfg : config) (url : string) (interval : Q) (i : nat) :
  cue_text cfg url (cue_of cfg interval i)
  = (timestamp_str (start_time_sec (cue_of cfg interval i)) ++ " --> "
     ++ timestamp_str (end_time_sec (cue_of cfg interval i)))
    ++ LF
    ++ xywh_line url
         (Z.of_nat i mod THUMBS_PER_ROW cfg * THUMB_WIDTH cfg)
         (Z.of_nat i / THUMBS_PER_ROW cfg * THUMB_HEIGHT cfg)
         (THUMB_WIDTH cfg) (THUMB_HEIGHT cfg)
    ++ LF ++ LF.
Proof.
  unfold cue_text, xywh_line. rewrite !format0_0_decimal.
  cbn [cue_of cue_x cue_y start_time_sec end_time_sec].
  now rewrite !string_append_assoc.
Qed.

(** The text of the cue file, cue by cue. *)
Lemma vtt_text_cues (cfg : config) (n : nat) (interval : Q) (url : string) :
  vtt_text cfg n interval url
  = "WEBVTT" ++ LF ++ LF
    ++ String.concat ""
         (map (fun i =>
                 (timestamp_str (start_time_sec (cue_of cfg interval i)) ++ " --> "
                  ++ timestamp_str (end_time_sec (cue_of cfg interval i)))
                 ++ LF
                 ++ xywh_line url
                      (Z.of_nat i mod THUMBS_PER_ROW cfg * THUMB_WIDTH cfg)
                      (Z.of_nat i / THUMBS_PER_ROW cfg * THUMB_HEIGHT cfg)
                      (THUMB_WIDTH cfg) (THUMB_HEIGHT cfg)
                 ++ LF ++ LF)
              (seq 0 n)).
Proof.
  unfold vtt_text, cue_entries, Py.range. rewrite Nat2Z.id, map_map.
  do 4 f_equal. apply map_ext. intros i. apply cue_text_lines.
Qed.




(** ** Cue times *)

Lemma cue_start_spec (cfg : config) (k : Q) (i : nat) :
  start_time_sec (cue_of cfg k i) = (inject_Z (Z.of_nat i) * k)%Q.
Proof. reflexivity. Qed.

Lemma cue_end_spec (cfg : config) (k : Q) (i : nat) :
  end_time_sec (cue_of cfg k i)
  = Qmin (start_time_sec (cue_of cfg k i) + k) (86399999 # 1000).
Proof. cbn [cue_of end_time_sec start_time_sec]. apply Py_min_Qmin. Qed.

Lemma cue_end_capped (cfg : config) (k : Q) (i : nat) :
  (end_time_sec (cue_of cfg k i) <= 86399999 # 1000)%Q.
Proof. cbn [cue_of end_time_sec]. apply Py_min_le_r. Qed.

(** Start times, and end times, never decrease from one entry to the next
    when the interval is not negative. *)
Lemma cue_times_monotone (cfg : config) (k : Q) (i j : nat) :
  (0 <= k)%Q -> (i <= j)%nat ->
  (start_time_sec (cue_of cfg k i) <= start_time_sec (cue_of cfg k j))%Q
  /\ (end_time_sec (cue_of cfg k i) <= end_time_sec (cue_of cfg k j))%Q.
Proof.
  intros Hk Hij.
  assert (Hs : (inject_Z (Z.of_nat i) * k <= inject_Z (Z.of_nat j) * k)%Q).
  { apply Qmult_le_compat_r; [|exact Hk]. rewrite <- Zle_Qle. lia. }
  split; [exact Hs|]. rewrite !cue_end_spec, !cue_start_spec.
  apply Q.min_glb.
  - eapply Qle_trans; [apply Q.le_min_l|]. lra.
  - apply Q.le_min_r.
Qed.

(** C3 on the code: only the end time goes through the cap.  With 17281
    frames at interval 5 (a video a little over 24 hours), entry 17280
    starts at [86400], above [86399.999], and ends at the cap, before it
    starts. *)
Theorem cue_start_exceeds_cap :
  let q := cue_of app_config 5 (Z.to_nat 17280) in
  cue_entries app_config (Z.to_nat 17281) 5 !! Z.to_nat 17280 = Some q
  /\ start_time_sec q = 86400%Q
  /\ end_time_sec q = 86399999 # 1000
  /\ ~ (start_time_sec q <= 86399999 # 1000)%Q
  /\ (end_time_sec q < start_time_sec q)%Q
  /\ timestamp_str (start_time_sec q) = "24:00:00.000"
  /\ timestamp_str (end_time_sec q) = "23:59:59.999".
Proof.
  split; [apply cue_entries_lookup; lia|].
  repeat split; try (vm_compute; reflexivity).
  vm_compute. intros H. now apply H.
Qed.

(** ** Frame file names *)

Lemma string_length_append (s t : string) :
  String.length (s ++ t) = (String.length s + String.length t)%nat.
Proof. induction s as [|c s IH]; simpl; [reflexivity | now rewrite IH]. Qed.

Lemma string_append_inv_tail (s1 s2 t : string) : s1 ++ t = s2 ++ t -> s1 = s2.
Proof.
  revert s2. induction s1 as [|c s1 IH]; intros [|c' s2] H.
  - reflexivity.
  - apply (f_equal String.length) in H.
    rewrite (string_length_append (String c' s2) t) in H.
    change (String.length ("" ++ t)) with (String.length t) in H.
    simpl in H. exfalso. lia.
  - apply (f_equal String.length) in H.
    rewrite (string_length_append (String c s1) t) in H.
    change (String.length ("" ++ t)) with (String.length t) in H.
    simpl in H. exfalso. lia.
  - change (String c (s1 ++ t) = String c' (s2 ++ t)) in H.
    injection H as -> H. f_equal. now apply IH.
Qed.

Lemma decode_str_N (n : N) : decode_decimal (Py.str_N n) = Some n.
Proof.
  unfold decode_decimal, Py.str_N.
  rewrite <- (DecimalN.Unsigned.of_to n) at 2.
  destruct (N.to_uint n); simpl; rewrite ?NilEmpty.usu; reflexivity.
Qed.

Lemma decode_zeros (k : nat) (s : string) (n : N) :
  decode_decimal s = Some n -> decode_decimal (Py.zeros k ++ s) = Some n.
Proof.
  intros H. induction k as [|k IH]; simpl; [exact H|].
  unfold decode_decimal in *. simpl.
  destruct (NilEmpty.uint_of_string (Py.zeros k ++ s)); [|discriminate].
  simpl in *. exact IH.
Qed.

Lemma decode_format0 (width : nat) (i : nat) :
  decode_decimal (Py.format0 width (Z.of_nat i)) = Some (N.of_nat i).
Proof.
  unfold Py.format0. destruct (Z.ltb_spec (Z.of_nat i) 0) as [H|_]; [lia|].
  unfold Py.zfill. apply decode_zeros.
  rewrite decode_str_N. f_equal. lia.
Qed.

Lemma thumb_filename_inj (i j : nat) : thumb_filename i = thumb_filename j -> i = j.
Proof.
  unfold thumb_filename. intros H.
  apply (String.app_inj "thumb_") in H.
  apply string_append_inv_tail in H.
  apply (f_equal decode_decimal) in H. rewrite !decode_format0 in H.
  injection H as H. lia.
Qed.

Lemma thumb_path_inj (output_dir : path) (i j : nat) :
  thumb_path output_dir i = thumb_path output_dir j -> i = j.
Proof.
  unfold thumb_path. intros H. apply app_inv_head in H.
  apply thumb_filename_inj. congruence.
Qed.

(** A frame name starts with [t]; the sprite and the cue file do not. *)
Lemma thumb_filename_head (i : nat) :
  exists rest, thumb_filename i = String "t" rest.
Proof. eexists. reflexivity. Qed.

Lemma thumb_filename_not_asset (i : nat) :
  thumb_filename i <> SPRITE_FILENAME /\ thumb_filename i <> VTT_FILENAME.
Proof.
  destruct (thumb_filename_head i) as [rest ->]. split; discriminate.
Qed.

(** ** The sampling loop and the file system *)

Section SamplerFiles.

Context (cfg : config) (e : env) (video_path output_dir : path) (duration : Q).

(** An iteration touches the file system at its own output path only. *)
Lemma extract_frame_files_other (i : nat) (st : world * list path) (q : path) :
  q <> thumb_path output_dir i ->
  files (extract_frame cfg e video_path output_dir duration i st).1 !! q = files st.1 !! q.
Proof.
  intros Hq. destruct st as [w acc]. unfold extract_frame.
  fold (thumb_path output_dir i).
  assert (H : files (leave_output (thumb_path output_dir i)
                       (produced (extract_result e i))
                       (record_call (FfmpegExtract
                          (timestamp_str (actual_timestamp cfg duration i))
                          video_path (thumb_path output_dir i)) w)) !! q
              = files w !! q).
  { destruct (produced (extract_result e i)); simpl; [|reflexivity].
    now rewrite lookup_insert_ne. }
  destruct (raised (extract_result e i));
    [|match goal with |- context [if ?b then _ else _] => destruct b end];
    exact H.
Qed.

(** The frame is kept exactly when the check of line 128 passes; on a
    fresh output path that is [frame_survives]. *)
Lemma extract_frame_paths (i : nat) (w : world) (acc : list path) :
  files w !! thumb_path output_dir i = None ->
  (extract_frame cfg e video_path output_dir duration i (w, acc)).2
  = (acc ++ if frame_survives (extract_result e i)
            then [thumb_path output_dir i] else [])%list.
Proof.
  intros Hfresh. unfold extract_frame, frame_survives.
  fold (thumb_path output_dir i).
  destruct (extract_result e i) as [r [n|]]; destruct r; simpl;
    try (now rewrite app_nil_r).
  - unfold os_path_exists, os_path_getsize. simpl.
    rewrite lookup_insert_eq. simpl.
    destruct (0 <? n)%N; simpl; [reflexivity | now rewrite app_nil_r].
  - unfold os_path_exists. simpl. rewrite Hfresh. simpl. now rewrite app_nil_r.
Qed.

Lemma sample_loop_files_other (l : list nat) (st : world * list path) (q : path) :
  (forall i, q <> thumb_path output_dir i) ->
  files (fold_left (fun st i => extract_frame cfg e video_path output_dir duration i st) l st).1 !! q = files st.1 !! q.
Proof.
  intros Hq. revert st. induction l as [|i l IH]; intros st; simpl; [reflexivity|].
  rewrite IH. now apply extract_frame_files_other.
Qed.

Lemma sample_loop_paths (l : list nat) (w : world) (acc : list path) :
  NoDup l ->
  (forall i, i ∈ l -> files w !! thumb_path output_dir i = None) ->
  (fold_left (fun st i => extract_frame cfg e video_path output_dir duration i st) l (w, acc)).2
  = (acc ++ map (thumb_path output_dir)
              (List.filter (fun i => frame_survives (extract_result e i)) l))%list.
Proof.
  revert w acc. induction l as [|i l IH]; intros w acc Hnd Hfresh; cbn [fold_left].
  - simpl. now rewrite app_nil_r.
  - apply NoDup_cons in Hnd as [Hi Hnd]. cbn [List.filter].
    pose proof (extract_frame_paths i w acc (Hfresh i ltac:(left))) as Hacc.
    cbv beta in Hacc.
    destruct (extract_frame cfg e video_path output_dir duration i (w, acc))
      as [w1 acc1] eqn:E.
    simpl in Hacc. rewrite IH; [| exact Hnd |].
    + subst acc1. destruct (frame_survives (extract_result e i)); simpl.
      * now rewrite <- app_assoc.
      * now rewrite app_nil_r.
    + intros j Hj.
      change w1 with (w1, acc1).1. rewrite <- E.
      rewrite (extract_frame_files_other i (w, acc)); [apply Hfresh; now right|].
      intros Heq. apply thumb_path_inj in Heq. subst j. contradiction.
Qed.

Lemma extract_frame_keeps (i : nat) (st : world * list path) :
  (extract_frame cfg e video_path output_dir duration i st).2 = st.2
  \/ (extract_frame cfg e video_path output_dir duration i st).2 = (st.2 ++ [thumb_path output_dir i])%list.
Proof.
  destruct st as [w acc]. unfold extract_frame. fold (thumb_path output_dir i).
  destruct (raised (extract_result e i));
    [|match goal with |- context [if ?b then _ else _] => destruct b end];
    simpl; auto.
Qed.

(** Without any assumption on the workspace: what is returned are frame
    paths, by increasing index. *)
Lemma sample_loop_sublist (l : list nat) (st : world * list path) :
  exists kept, sublist kept l
    /\ (fold_left (fun st i => extract_frame cfg e video_path output_dir duration i st) l st).2 = (st.2 ++ map (thumb_path output_dir) kept)%list.
Proof.
  revert st. induction l as [|i l IH]; intros st; cbn [fold_left].
  - exists []. split; [constructor | simpl; now rewrite app_nil_r].
  - destruct (IH (extract_frame cfg e video_path output_dir duration i st))
      as (kept & Hsub & ->).
    destruct (extract_frame_keeps i st) as [-> | ->].
    + exists kept. split; [now constructor | reflexivity].
    + exists (i :: kept). split; [now constructor | now rewrite <- app_assoc].
Qed.

End SamplerFiles.

Lemma NoDup_range (n : Z) : NoDup (Py.range n).
Proof. apply NoDup_seq. Qed.

(** On a fresh workspace the sampler returns the frames whose extraction
    survived, by increasing index. *)
Lemma sampler_survivors (cfg : config) (e : env) (video_path output_dir : path)
    (duration : Q) (w : world) :
  (0 < THUMBNAIL_INTERVAL cfg)%Q ->
  (forall i, files w !! thumb_path output_dir i = None) ->
  exists w',
    generate_individual_thumbnails cfg e video_path output_dir duration w
    = Some (w',
            map (thumb_path output_dir)
              (List.filter (fun i => frame_survives (extract_result e i))
                 (Py.range (num_thumbnails cfg duration)))).
Proof.
  intros Hk Hfresh. unfold generate_individual_thumbnails.
  destruct (Qeq_bool (THUMBNAIL_INTERVAL cfg) 0) eqn:E.
  { apply Qeq_bool_iff in E. rewrite E in Hk. discriminate Hk. }
  match goal with |- context [Some ?r] => destruct r as [w' ps] eqn:R end.
  exists w'. do 2 f_equal.
  change ps with (w', ps).2. rewrite <- R.
  rewrite sample_loop_paths; [reflexivity | apply NoDup_range | auto].
Qed.

(** ** Directory creation and cleanup *)

Lemma makedirs_from_calls (base p : path) (w : world) :
  calls (makedirs_from base p w) = calls w.
Proof.
  revert base w. induction p as [|x p IH]; intros base w; simpl; [reflexivity|].
  rewrite IH. now destruct (os_path_exists (base ++ [x]) w).
Qed.

(** [os.makedirs] only creates prefixes of its argument. *)
Lemma makedirs_from_files_longer (base p : path) (w : world) (q : path) :
  (List.length base + List.length p < List.length q)%nat ->
  files (makedirs_from base p w) !! q = files w !! q.
Proof.
  revert base w. induction p as [|x p IH]; intros base w Hlen; simpl; [reflexivity|].
  rewrite IH by (rewrite length_app; simpl in *; lia).
  destruct (os_path_exists (base ++ [x]) w); [reflexivity|]. simpl.
  apply lookup_insert_ne. intros <-. rewrite length_app in Hlen. simpl in Hlen. lia.
Qed.

Lemma remove_if_exists_gone (e : env) (p : path) (w : world) :
  remove_fails e p = false -> files (remove_if_exists e p w) !! p = None.
Proof.
  intros Hok. unfold remove_if_exists, os_path_exists, os_remove. rewrite Hok.
  destruct (files w !! p) eqn:E; simpl; [apply lookup_delete_eq | exact E].
Qed.

Lemma remove_if_exists_other (e : env) (p q : path) (w : world) :
  q <> p -> files (remove_if_exists e p w) !! q = files w !! q.
Proof.
  intros Hq. unfold remove_if_exists, os_remove.
  destruct (os_path_exists p w); [|reflexivity].
  destruct (remove_fails e p); [reflexivity|]. simpl. now apply lookup_delete_ne.
Qed.

Lemma remove_if_exists_None (e : env) (p q : path) (w : world) :
  files w !! q = None -> files (remove_if_exists e p w) !! q = None.
Proof.
  intros H. destruct (decide (q = p)) as [->|Hq].
  - unfold remove_if_exists, os_path_exists. now rewrite H.
  - now rewrite remove_if_exists_other.
Qed.

Lemma remove_all_calls (e : env) (ps : list path) (w : world) :
  calls (fold_left (fun w p => remove_if_exists e p w) ps w) = calls w.
Proof.
  revert w. induction ps as [|p ps IH]; intros w; simpl; [reflexivity|].
  now rewrite IH, remove_if_exists_calls.
Qed.

Lemma remove_all_None (e : env) (ps : list path) (w : world) (q : path) :
  files w !! q = None ->
  files (fold_left (fun w p => remove_if_exists e p w) ps w) !! q = None.
Proof.
  revert w. induction ps as [|p ps IH]; intros w H; simpl; [exact H|].
  apply IH. now apply remove_if_exists_None.
Qed.

Lemma remove_all_other (e : env) (ps : list path) (w : world) (q : path) :
  q ∉ ps ->
  files (fold_left (fun w p => remove_if_exists e p w) ps w) !! q = files w !! q.
Proof.
  revert w. induction ps as [|p ps IH]; intros w H; simpl; [reflexivity|].
  apply not_elem_of_cons in H as [Hp Hps].
  rewrite IH by exact Hps. now apply remove_if_exists_other.
Qed.

Lemma remove_all_gone (e : env) (ps : list path) (w : world) (q : path) :
  (forall p, remove_fails e p = false) -> q ∈ ps ->
  files (fold_left (fun w p => remove_if_exists e p w) ps w) !! q = None.
Proof.
  intros Hok. revert w. induction ps as [|p ps IH]; intros w H; simpl.
  - now apply elem_of_nil in H.
  - apply elem_of_cons in H as [->|H]; [|now apply IH].
    apply remove_all_None. now apply remove_if_exists_gone.
Qed.

Lemma generate_finally_calls (e : env) (video_path : path) (ps : list path)
    (w : world) :
  calls (generate_finally e video_path ps w) = calls w.
Proof.
  unfold generate_finally. now rewrite remove_all_calls, remove_if_exists_calls.
Qed.

(** The [finally] block only deletes. *)
Lemma generate_finally_None (e : env) (video_path : path) (ps : list path)
    (w : world) (q : path) :
  files w !! q = None -> files (generate_finally e video_path ps w) !! q = None.
Proof.
  intros H. unfold generate_finally.
  now apply remove_all_None, remove_if_exists_None.
Qed.

Lemma generate_finally_other (e : env) (video_path : path) (ps : list path)
    (w : world) (q : path) :
  q <> video_path -> q ∉ ps ->
  files (generate_finally e video_path ps w) !! q = files w !! q.
Proof.
  intros Hv Hps. unfold generate_finally.
  rewrite remove_all_other by exact Hps. now apply remove_if_exists_other.
Qed.

(** When no removal fails, the block leaves neither the video nor any of
    the listed frames behind. *)
Lemma generate_finally_removes (e : env) (video_path : path) (ps : list path)
    (w : world) (q : path) :
  (forall p, remove_fails e p = false) ->
  q = video_path \/ q ∈ ps ->
  files (generate_finally e video_path ps w) !! q = None.
Proof.
  intros Hok [->|H]; unfold generate_finally.
  - apply remove_all_None. now apply remove_if_exists_gone.
  - now apply remove_all_gone.
Qed.

(** ** The job *)

(** A successful [try] block went through every stage. *)
Lemma generate_try_success (cfg : config) (e : env) (url job : string)
    (w w' : world) (ps : list path) (s v : string) :
  generate_try cfg e url job w = (w', ps, Success s v) ->
  exists n d w3 w4,
    download_result e = Downloaded n
    /\ probe_result e = Some d /\ (0 < d)%Q
    /\ generate_individual_thumbnails cfg e (job_video_path job) (job_dir job) d
         (probed_world url job n w) = Some (w3, ps)
    /\ ps <> []
    /\ create_sprite_image cfg e ps (job_dir job ++ [SPRITE_FILENAME])%list w3
       = Some (w4, true)
    /\ create_vtt_file cfg e (job_dir job) (List.length ps)
         (thumbnail_interval_for_vtt cfg d) (asset_url job SPRITE_FILENAME) w4
       = (w', true).
Proof.
  unfold generate_try, download_video, get_video_duration, probed_world.
  destruct (download_result e) as [n|partial]; [|discriminate].
  destruct (probe_result e) as [d|]; [|discriminate].
  destruct (Qle_bool d 0) eqn:Hd; [discriminate|].
  destruct (generate_individual_thumbnails _ _ _ _ _ _) as [[w3 [|p ps']]|] eqn:Hs;
    try discriminate.
  destruct (create_sprite_image _ _ _ _ _) as [[w4 [|]]|] eqn:Hc; try discriminate.
  destruct (create_vtt_file _ _ _ _ _ _ _) as [w5 [|]] eqn:Hv; try discriminate.
  intros [= <- <- <- <-].
  exists n, d, w3, w4. repeat split; try assumption; try reflexivity.
  - apply Qnot_le_lt. intros H. apply Qle_bool_iff in H. congruence.
  - discriminate.
Qed.

Lemma sampler_inv (cfg : config) (e : env) (video_path output_dir : path)
    (d : Q) (w w' : world) (ps : list path) :
  generate_individual_thumbnails cfg e video_path output_dir d w = Some (w', ps) ->
  calls w'
  = (calls w ++ map (extract_call cfg video_path output_dir d)
                  (Py.range (num_thumbnails cfg d)))%list
  /\ (exists kept, sublist kept (Py.range (num_thumbnails cfg d))
        /\ ps = map (thumb_path output_dir) kept)
  /\ forall q, (forall i, q <> thumb_path output_dir i) ->
       files w' !! q = files w !! q.
Proof.
  unfold generate_individual_thumbnails.
  destruct (Qeq_bool (THUMBNAIL_INTERVAL cfg) 0); [discriminate|].
  intros [= H]. split; [|split].
  - change w' with (w', ps).1. rewrite <- H. apply sample_loop_calls.
  - destruct (sample_loop_sublist cfg e video_path output_dir d
                (Py.range (num_thumbnails cfg d)) (w, [])) as (kept & Hsub & Hps).
    rewrite H in Hps. exists kept. split; [exact Hsub | exact Hps].
  - intros q Hq. change w' with (w', ps).1. rewrite <- H.
    now rewrite sample_loop_files_other.
Qed.

Lemma create_sprite_image_ok (cfg : config) (e : env) (ps : list path)
    (output_path : path) (w w' : world) :
  create_sprite_image cfg e ps output_path w = Some (w', true) ->
  calls w'
  = (calls w
     ++ [FfmpegTile
           (manifest_entries ps (dirname (dirname output_path ++ ["input_thumbs.txt"])))
           (THUMBS_PER_ROW cfg) (num_rows cfg (List.length ps)) output_path])%list.
Proof.
  intros H.
  destruct ps as [|p ps]; [discriminate|].
  destruct (Z.eq_dec (THUMBS_PER_ROW cfg) 0) as [Hc|Hc].
  { unfold create_sprite_image in H. apply Z.eqb_eq in Hc. now rewrite Hc in H. }
  destruct (write_fails e (dirname output_path ++ ["input_thumbs.txt"])) eqn:Hw.
  { unfold create_sprite_image in H. apply Z.eqb_neq in Hc.
    rewrite Hc, Hw in H. discriminate. }
  destruct (create_sprite_image_call cfg e (p :: ps) output_path w)
    as (w1 & Hrun & Hcalls); [discriminate | exact Hc | exact Hw |].
  rewrite Hrun in H. injection H as <- _. exact Hcalls.
Qed.

Lemma create_vtt_file_ok (cfg : config) (e : env) (output_dir : path) (n : nat)
    (interval : Q) (url : string) (w w' : world) :
  create_vtt_file cfg e output_dir n interval url w = (w', true) ->
  w' = write_file (output_dir ++ [VTT_FILENAME])
         (Text (vtt_text cfg n interval url)) w.
Proof.
  unfold create_vtt_file.
  destruct (write_fails e _); [discriminate|].
  destruct (_ && _); [discriminate|]. now intros [= <-].
Qed.

Lemma thumb_path_not_asset (output_dir : path) (kept : list nat) :
  ((output_dir ++ [SPRITE_FILENAME])%list ∉ map (thumb_path output_dir) kept)
  /\ ((output_dir ++ [VTT_FILENAME])%list ∉ map (thumb_path output_dir) kept).
Proof.
  split; intros H; apply list_elem_of_In in H; apply in_map_iff in H;
    destruct H as (i & Hi & _); unfold thumb_path in Hi;
    apply app_inv_head in Hi; destruct (thumb_filename_not_asset i);
    congruence.
Qed.

(** What a successful job leaves and what it asked for. *)
Lemma generate_success (cfg : config) (e : env) (url : option string)
    (job : string) (w w' : world) (s v : string) :
  generate cfg e url job w = (w', Success s v) ->
  exists u d n inputs,
    url = Some u
    /\ probe_result e = Some d /\ (0 < d)%Q /\ (0 < n)%nat
    /\ files w' !! (job_dir job ++ [VTT_FILENAME])%list
       = Some (File (Text (vtt_text cfg n (thumbnail_interval_for_vtt cfg d)
                             (asset_url job SPRITE_FILENAME))))
    /\ calls w'
       = (calls w
          ++ [HttpGet u (job_video_path job); Ffprobe (job_video_path job)]
          ++ map (extract_call cfg (job_video_path job) (job_dir job) d)
               (Py.range (num_thumbnails cfg d))
          ++ [FfmpegTile inputs (THUMBS_PER_ROW cfg) (num_rows cfg n)
                (job_dir job ++ [SPRITE_FILENAME])])%list.
Proof.
  unfold generate. destruct url as [[|c u]|]; try discriminate.
  destruct (generate_try _ _ _ _ _) as [[w5 ps] resp] eqn:E.
  intros [= <- ->].
  apply generate_try_success in E
    as (n & d & w3 & w4 & _ & Hp & Hd & Hs & Hne & Hc & Hv).
  apply sampler_inv in Hs as (Hcalls3 & (kept & _ & Hps) & _).
  apply create_sprite_image_ok in Hc. apply create_vtt_file_ok in Hv.
  exists (String c u), d, (List.length ps). eexists.
  split; [reflexivity|]. split; [exact Hp|]. split; [exact Hd|].
  split; [destruct ps; [congruence | simpl; lia]|]. split.
  - rewrite generate_finally_other.
    + rewrite Hv. simpl. apply lookup_insert_eq.
    + discriminate.
    + rewrite Hps. apply thumb_path_not_asset.
  - rewrite generate_finally_calls, Hv. cbn [calls write_file].
    rewrite Hc, Hcalls3. unfold probed_world, os_makedirs.
    cbn [calls write_file record_call]. rewrite makedirs_from_calls.
    rewrite <- !app_assoc. reflexivity.
Qed.

(** ** The cue interval of short videos *)


Lemma interval_for_long_video (cfg : config) (d : Q) :
  (THUMBNAIL_INTERVAL cfg <= d)%Q ->
  thumbnail_interval_for_vtt cfg d = THUMBNAIL_INTERVAL cfg.
Proof.
  intros Hk. unfold thumbnail_interval_for_vtt.
  destruct (d ?= THUMBNAIL_INTERVAL cfg)%Q eqn:E; try reflexivity.
  assert (E' : (d < THUMBNAIL_INTERVAL cfg)%Q) by now apply Qlt_alt.
  exfalso. eapply Qlt_irrefl, Qlt_le_trans; eassumption.
Qed.



(** ** Jobs in which no frame survives *)

(** Creating the workspace, downloading and probing leave the inside of
    the workspace as it was. *)
Lemma probed_world_workspace (url job name : string) (n : N) (w : world) :
  files (probed_world url job n (os_makedirs (job_dir job) w))
    !! (job_dir job ++ [name])%list
  = files w !! (job_dir job ++ [name])%list.
Proof.
  unfold probed_world. cbn [files record_call write_file].
  rewrite lookup_insert_ne by discriminate.
  unfold os_makedirs. now rewrite makedirs_from_files_longer by (simpl; lia).
Qed.

Lemma filter_none {A : Type} (f : A -> bool) (l : list A) :
  (forall x, f x = false) -> List.filter f l = [].
Proof.
  intros H. induction l as [|x l IH]; simpl; [reflexivity|]. now rewrite H.
Qed.

(** C6.  The composer given the empty sequence returns [False] at once and
    changes nothing.  When the download and the probe succeed but no
    extraction leaves a surviving frame in the (fresh) workspace, the job
    answers with the error of line 302; it has made no tiling request, and
    neither the sprite nor the cue file exists afterwards. *)
Theorem zero_frames_job_fails (cfg : config) (e : env) (url job : string)
    (w : world) (n : N) (d : Q) :
  url <> "" ->
  download_result e = Downloaded n ->
  probe_result e = Some d -> (0 < d)%Q ->
  (0 < THUMBNAIL_INTERVAL cfg)%Q ->
  (forall i, frame_survives (extract_result e i) = false) ->
  (forall name, files w !! (job_dir job ++ [name])%list = None) ->
  (forall output_path w0,
     create_sprite_image cfg e [] output_path w0 = Some (w0, false))
  /\ exists w',
       generate cfg e (Some url) job w
       = (w', Error 500 "Failed to generate any valid thumbnails. Video might be unreadable or too short for extraction.")
       /\ files w' !! (job_dir job ++ [SPRITE_FILENAME])%list = None
       /\ files w' !! (job_dir job ++ [VTT_FILENAME])%list = None
       /\ calls w'
          = (calls w
             ++ [HttpGet url (job_video_path job); Ffprobe (job_video_path job)]
             ++ map (extract_call cfg (job_video_path job) (job_dir job) d)
                  (Py.range (num_thumbnails cfg d)))%list.
Proof.
  intros Hurl Hdl Hp Hd Hk Hnone Hfresh.
  split; [reflexivity|].
  set (w2 := probed_world url job n (os_makedirs (job_dir job) w)).
  destruct (sampler_survivors cfg e (job_video_path job) (job_dir job) d w2 Hk)
    as (w3 & Hs).
  { intros i. unfold w2, thumb_path. rewrite probed_world_workspace. apply Hfresh. }
  rewrite filter_none in Hs by exact Hnone. simpl in Hs.
  pose proof (sampler_inv _ _ _ _ _ _ _ _ Hs) as (Hcalls & _ & Hother).
  assert (Hd' : Qle_bool d 0 = false).
  { destruct (Qle_bool d 0) eqn:E; [|reflexivity].
    apply Qle_bool_iff in E. exfalso.
    exact (Qlt_irrefl 0 (Qlt_le_trans 0 d 0 Hd E)). }
  assert (Hasset : forall name, (forall i, name <> thumb_filename i) ->
            files w3 !! (job_dir job ++ [name])%list = None).
  { intros name Hname. rewrite Hother.
    - unfold w2. rewrite probed_world_workspace. apply Hfresh.
    - intros i Heq. unfold thumb_path in Heq. apply app_inv_head in Heq.
      apply (Hname i). congruence. }
  exists (generate_finally e (job_video_path job) [] w3).
  split; [|split; [|split]].
  - unfold generate. destruct url as [|c u]; [congruence|].
    unfold generate_try, download_video, get_video_duration.
    rewrite Hdl, Hp, Hd'. fold (probed_world (String c u) job n
                                  (os_makedirs (job_dir job) w)).
    fold w2. rewrite Hs. reflexivity.
  - apply generate_finally_None, Hasset.
    intros i H. now apply (thumb_filename_not_asset i).
  - apply generate_finally_None, Hasset.
    intros i H. now apply (thumb_filename_not_asset i).
  - rewrite generate_finally_calls, Hcalls. unfold w2, probed_world, os_makedirs.
    cbn [calls write_file record_call]. rewrite makedirs_from_calls.
    now rewrite <- !app_assoc.
Qed.

Lemma zero_frames_job_fails_witness :
  "http://host/clip.mp4" <> ""
  /\ download_result (empty_frames 3) = Downloaded 1000
  /\ probe_result (empty_frames 3) = Some 3%Q
  /\ (0 < 3)%Q /\ (0 < THUMBNAIL_INTERVAL app_config)%Q
  /\ (forall i, frame_survives (extract_result (empty_frames 3) i) = false)
  /\ (forall name, files startup !! (job_dir "job" ++ [name])%list = None)
  /\ exists w',
       (generate app_config (empty_frames 3) (Some "http://host/clip.mp4") "job"
          startup).1 = w'
       /\ files w' !! (job_dir "job" ++ [SPRITE_FILENAME])%list = None.
Proof.
  assert (Hfresh : forall name,
            files startup !! (job_dir "job" ++ [name])%list = None).
  { intros name. unfold startup, startup_files. cbn [files].
    rewrite !lookup_insert_ne by discriminate. apply lookup_empty. }
  split; [discriminate|]. split; [reflexivity|]. split; [reflexivity|].
  split; [reflexivity|]. split; [reflexivity|]. split; [reflexivity|].
  split; [exact Hfresh|].
  destruct (zero_frames_job_fails app_config (empty_frames 3)
              "http://host/clip.mp4" "job" startup 1000 3
              ltac:(discriminate) eq_refl eq_refl eq_refl eq_refl
              (fun _ => eq_refl) Hfresh) as (_ & w' & Hgen & Hsprite & _).
  exists w'. split; [now rewrite Hgen | exact Hsprite].
Defined.

(** ** Jobs that succeed *)

(** Progress: on a fresh workspace, when the download, the probe, the
    tiling and the writes succeed and at least one frame survives, the job
    answers with the two asset URLs and the cue file holds one entry per
    surviving frame. *)
Lemma generate_succeeds (cfg : config) (e : env) (url job : string)
    (w : world) (n : N) (d : Q) :
  url <> "" ->
  download_result e = Downloaded n ->
  probe_result e = Some d -> (0 < d)%Q ->
  (0 < THUMBNAIL_INTERVAL cfg)%Q -> 0 < THUMBS_PER_ROW cfg ->
  raised (tile_result e) = false ->
  (forall p, write_fails e p = false) ->
  (forall name, files w !! (job_dir job ++ [name])%list = None) ->
  let survivors :=
    List.filter (fun i => frame_survives (extract_result e i))
      (Py.range (num_thumbnails cfg d)) in
  survivors <> [] ->
  exists w',
    generate cfg e (Some url) job w
    = (w', Success (asset_url job SPRITE_FILENAME) (asset_url job VTT_FILENAME))
    /\ files w' !! (job_dir job ++ [VTT_FILENAME])%list
       = Some (File (Text (vtt_text cfg (List.length survivors)
                             (thumbnail_interval_for_vtt cfg d)
                             (asset_url job SPRITE_FILENAME))))
    /\ tile_inputs w'
       = manifest_entries (map (thumb_path (job_dir job)) survivors) (job_dir job).
Proof.
  intros Hurl Hdl Hp Hd Hk Hc Htile Hwrite Hfresh survivors Hne.
  set (w2 := probed_world url job n (os_makedirs (job_dir job) w)).
  destruct (sampler_survivors cfg e (job_video_path job) (job_dir job) d w2 Hk)
    as (w3 & Hs).
  { intros i. unfold w2, thumb_path. rewrite probed_world_workspace. apply Hfresh. }
  fold survivors in Hs.
  assert (Hd' : Qle_bool d 0 = false).
  { destruct (Qle_bool d 0) eqn:E; [|reflexivity].
    apply Qle_bool_iff in E. exfalso.
    exact (Qlt_irrefl 0 (Qlt_le_trans 0 d 0 Hd E)). }
  assert (Hlen : List.length (map (thumb_path (job_dir job)) survivors)
                 = List.length survivors) by apply length_map.
  assert (Hin : (job_dir job ++ [VTT_FILENAME])%list
                ∉ map (thumb_path (job_dir job)) survivors)
    by apply thumb_path_not_asset.
  destruct (map (thumb_path (job_dir job)) survivors) as [|p ps] eqn:Eps.
  { destruct survivors; [congruence | discriminate]. }
  destruct (create_sprite_image_call cfg e (p :: ps)
              (job_dir job ++ [SPRITE_FILENAME])%list w3)
    as (w4 & Hsprite & Hcalls4); [discriminate | lia | apply Hwrite |].
  rewrite Htile in Hsprite. simpl negb in Hsprite.
  assert (Hcz : (THUMBS_PER_ROW cfg =? 0) = false) by (apply Z.eqb_neq; lia).
  eexists. split; [|split].
  - unfold generate. destruct url as [|c u]; [congruence|].
    unfold generate_try, download_video, get_video_duration.
    rewrite Hdl, Hp, Hd'.
    fold (probed_world (String c u) job n (os_makedirs (job_dir job) w)).
    fold w2. rewrite Hs, Hsprite. unfold create_vtt_file.
    rewrite Hwrite, Hcz. simpl andb. cbv iota. reflexivity.
  - rewrite generate_finally_other; [| discriminate | exact Hin].
    cbn [files write_file]. rewrite lookup_insert_eq, Hlen. reflexivity.
  - unfold tile_inputs. rewrite generate_finally_calls. cbn [calls write_file].
    rewrite Hcalls4, last_snoc. reflexivity.
Qed.

Lemma filter_all {A : Type} (f : A -> bool) (l : list A) :
  (forall x, f x = true) -> List.filter f l = l.
Proof.
  intros H. induction l as [|x l IH]; simpl; [reflexivity|]. now rewrite H, IH.
Qed.

(** ** Cleanup *)

(** What the [finally] block does achieve: when no removal fails, the
    downloaded video and every frame in [thumbnail_paths] are gone. *)
Lemma generate_removes_listed (cfg : config) (e : env) (url job : string)
    (w : world) (q : path) :
  url <> "" ->
  (forall p, remove_fails e p = false) ->
  q = job_video_path job
  \/ q ∈ (generate_try cfg e url job (os_makedirs (job_dir job) w)).1.2 ->
  files (generate cfg e (Some url) job w).1 !! q = None.
Proof.
  intros Hurl Hok Hq. unfold generate. destruct url as [|c u]; [congruence|].
  destruct (generate_try _ _ _ _ _) as [[w5 ps] resp]. simpl in *.
  now apply generate_finally_removes.
Qed.

(** C5 on the code: a frame file that fails the size check of line 128 is
    never put in [thumbnail_paths], so the [finally] block does not delete
    it.  A 3-second video whose only frame comes out empty: the job fails
    and [thumb_0000.jpg] stays in the workspace.  A 23-second video whose
    last frame comes out empty: the job succeeds and [thumb_0004.jpg] stays
    next to the sprite and the cue file. *)
Theorem empty_frame_left_behind :
  let failed :=
    generate app_config (empty_frames 3) (Some "http://host/clip.mp4") "job" startup in
  let succeeded :=
    generate app_config last_frame_empty (Some "http://host/film.mp4") "job" startup in
  failed.2 = Error 500 "Failed to generate any valid thumbnails. Video might be unreadable or too short for extraction."
  /\ files failed.1 !! job_video_path "job" = None
  /\ files failed.1 !! (job_dir "job" ++ ["thumb_0000.jpg"])%list
     = Some (File (Binary 0))
  /\ succeeded.2 = Success "/thumbnails/job/sprite.jpg" "/thumbnails/job/sprite.vtt"
  /\ files succeeded.1 !! job_video_path "job" = None
  /\ files succeeded.1 !! (job_dir "job" ++ ["thumb_0003.jpg"])%list = None
  /\ files succeeded.1 !! (job_dir "job" ++ ["thumb_0004.jpg"])%list
     = Some (File (Binary 0)).
Proof. vm_compute. repeat split; reflexivity. Qed.

(** ** The asset route *)

Lemma serve_missing (job_id filename : string) (w : world) :
  os_stat (files w) [THUMBNAIL_FOLDER; job_id; filename] = None ->
  serve_thumbnail_assets job_id filename w = NotFound 404.
Proof.
  intros H. unfold serve_thumbnail_assets, stat_exists. now rewrite H.
Qed.

(** For a job identifier that is not a dot segment, what is served is the
    file of that name in the job's workspace. *)
Lemma serve_plain_job (job_id filename : string) (w : world) (target : path)
    (c : content) :
  job_id <> "." -> job_id <> ".." ->
  serve_thumbnail_assets job_id filename w = SendFile target c ->
  target = [THUMBNAIL_FOLDER; job_id; filename]
  /\ in_workspace job_id target
  /\ files w !! target = Some (File c).
Proof.
  intros Hdot Hdotdot. unfold serve_thumbnail_assets, stat_exists, stat_isfile, send_file.
  destruct (os_stat (files w) [THUMBNAIL_FOLDER; job_id; filename])
    as [[t [|c']]|] eqn:E; try discriminate.
  simpl. intros [= <- <-]. revert E. unfold os_stat. simpl.
  apply String.eqb_neq in Hdot, Hdotdot. rewrite Hdot, Hdotdot.
  destruct (files w !! [THUMBNAIL_FOLDER]) as [[|]|] eqn:Et; try discriminate.
  simpl.
  destruct (files w !! [THUMBNAIL_FOLDER; job_id]) as [[|]|] eqn:Ej;
    try discriminate.
  destruct (String.eqb_spec filename ".") as [->|_];
    [simpl; rewrite Ej; discriminate|].
  destruct (String.eqb_spec filename "..") as [->|_];
    [simpl; rewrite Et; discriminate|].
  simpl. destruct (files w !! [THUMBNAIL_FOLDER; job_id; filename]) eqn:F;
    [|discriminate].
  intros [= <- ->]. split; [reflexivity|]. split; [|exact F].
  exists [filename]. reflexivity.
Qed.

(** C7 on the code: the route only checks that the joined path exists and
    is a file.  With [job_id = ".."] and [filename = "app.py"] (both free
    of separators) the path [temp_thumbnails/../app.py] leads to the
    application's own source file, which is served although it lies
    outside [THUMBNAIL_FOLDER], in no job's workspace. *)
Theorem dot_dot_job_escapes :
  serve_thumbnail_assets ".." "app.py" startup = SendFile ["app.py"] (Binary 14000)
  /\ (forall job_id, ~ in_workspace job_id ["app.py"])
  /\ (forall rest, ["app.py"] <> THUMBNAIL_FOLDER :: rest).
Proof.
  split; [vm_compute; reflexivity|]. split.
  - intros job_id [rest H]. discriminate H.
  - intros rest H. discriminate H.
Qed.

(** ** The order of the frames handed to the tiling tool *)

Lemma ascii_compare_refl (c : ascii) : Ascii.compare c c = Eq.
Proof. unfold Ascii.compare. apply N.compare_refl. Qed.

Lemma string_compare_app (p a b : string) :
  String.compare (p ++ a) (p ++ b) = String.compare a b.
Proof.
  induction p as [|c p IH]; [reflexivity|].
  change (String.compare (String c (p ++ a)) (String c (p ++ b))
          = String.compare a b).
  cbn [String.compare]. now rewrite ascii_compare_refl.
Qed.

(** The string of a path in a directory is the directory's prefix followed
    by the file name. *)
Lemma path_str_in_dir (dir : path) :
  exists prefix, forall name, path_str (dir ++ [name]) = prefix ++ name.
Proof.
  unfold path_str. induction dir as [|x dir [prefix IH]].
  - exists "". reflexivity.
  - exists (x ++ "/" ++ prefix). intros name.
    specialize (IH name). cbn [app String.concat].
    destruct (dir ++ [name])%list eqn:E.
    + now destruct dir.
    + rewrite IH. now rewrite !string_append_assoc.
Qed.

Lemma ltb_false_of_leb (a b : string) :
  String.leb a b = true -> String.ltb b a = false.
Proof.
  unfold String.leb, String.ltb. rewrite (String.compare_antisym a b).
  now destruct (String.compare b a).
Qed.

Lemma thumb_filename_frame_name (i : nat) :
  thumb_filename i = frame_name (Z.of_nat i).
Proof. reflexivity. Qed.

Lemma all_from_spec (fuel : nat) (z : Z) (P : Z -> bool) :
  all_from fuel z P = true ->
  forall k, (k < fuel)%nat -> P (z + Z.of_nat k) = true.
Proof.
  revert z. induction fuel as [|fuel IH]; intros z H k Hk; [lia|].
  simpl in H. apply andb_prop in H as [Hz Hrest].
  destruct k as [|k].
  - now rewrite Z.add_0_r.
  - replace (z + Z.of_nat (S k)) with (z + 1 + Z.of_nat k) by lia.
    apply IH; [exact Hrest | lia].
Qed.

(** Checked by evaluation: the names of frames 0 to 9999 are in
    non-decreasing string order from each one to the next. *)
Lemma frame_names_adjacent :
  all_from (Z.to_nat 9999) 0
    (fun z => String.leb (frame_name z) (frame_name (z + 1))) = true.
Proof. vm_compute. reflexivity. Qed.

Lemma thumb_names_adjacent (j : nat) :
  (j < Z.to_nat 9999)%nat ->
  String.leb (thumb_filename j) (thumb_filename (S j)) = true.
Proof.
  intros Hj.
  pose proof (all_from_spec _ _ _ frame_names_adjacent j Hj) as H.
  cbv beta in H. rewrite Z.add_0_l in H.
  now rewrite !thumb_filename_frame_name, Nat2Z.inj_succ, <- Z.add_1_r.
Qed.

Lemma thumb_names_ordered (i j : nat) :
  (i <= j)%nat -> (j < Z.to_nat 10000)%nat ->
  String.leb (thumb_filename i) (thumb_filename j) = true.
Proof.
  intros Hij Hj. apply Is_true_true.
  change (String.le (thumb_filename i) (thumb_filename j)).
  induction j as [|j IH].
  - assert (i = 0)%nat as -> by lia. reflexivity.
  - destruct (decide (i = S j)) as [->|Hne]; [reflexivity|].
    transitivity (thumb_filename j); [apply IH; lia|].
    unfold String.le. apply Is_true_true, thumb_names_adjacent. lia.
Qed.

Lemma insert_sorted_head (p : path) (l : list path) :
  (forall q, head l = Some q -> String.ltb (path_str q) (path_str p) = false) ->
  insert_sorted p l = p :: l.
Proof.
  destruct l as [|q l]; [reflexivity|]. intros H. simpl.
  now rewrite (H q eq_refl).
Qed.

(** Frames listed by increasing index, all below 10000, are left in that
    order by [sorted]. *)
Lemma sorted_frames_in_order (dir : path) (kept : list nat) :
  StronglySorted lt kept ->
  Forall (fun i => (i < Z.to_nat 10000)%nat) kept ->
  sorted (map (thumb_path dir) kept) = map (thumb_path dir) kept.
Proof.
  destruct (path_str_in_dir dir) as [prefix Hprefix].
  induction kept as [|i kept IH]; intros Hs Hb; [reflexivity|].
  apply StronglySorted_inv in Hs as [Hs Hlt].
  apply Forall_cons in Hb as [Hi Hb].
  unfold sorted in *. cbn [map fold_right]. rewrite IH by assumption.
  apply insert_sorted_head. intros q Hq.
  destruct kept as [|j kept']; [discriminate|]. injection Hq as <-.
  unfold thumb_path. rewrite !Hprefix. apply ltb_false_of_leb.
  unfold String.leb. rewrite string_compare_app.
  apply Forall_cons in Hlt as [Hij _]. apply Forall_cons in Hb as [Hj _].
  apply (thumb_names_ordered i j); lia.
Qed.

Lemma sublist_seq_sorted (kept : list nat) (a n : nat) :
  sublist kept (seq a n) ->
  StronglySorted lt kept /\ Forall (fun i => (a <= i < a + n)%nat) kept.
Proof.
  revert a kept. induction n as [|n IH]; intros a kept H; simpl in H.
  - apply sublist_nil_r in H as ->. split; constructor.
  - inversion H as [| x l1 l2 H' | x l1 l2 H']; subst.
    + destruct (IH _ _ H') as [Hs Hb]. split.
      * constructor; [exact Hs|]. eapply Forall_impl; [exact Hb|].
        intros i Hi. simpl in Hi. lia.
      * constructor; [lia|]. eapply Forall_impl; [exact Hb|].
        intros i Hi. simpl in Hi. lia.
    + destruct (IH _ _ H') as [Hs Hb]. split; [exact Hs|].
      eapply Forall_impl; [exact Hb|]. intros i Hi. simpl in Hi. lia.
Qed.

Lemma relpath_in_dir (dir : path) (name : string) :
  relpath (dir ++ [name]) dir = [name].
Proof.
  induction dir as [|x dir IH]; [reflexivity|].
  simpl. now rewrite String.eqb_refl.
Qed.

(** Up to 10000 requested frames, the tiling tool receives the surviving
    frames by increasing index. *)
Lemma tiling_order_below_10000 (cfg : config) (e : env) (video_path dir : path)
    (d : Q) (w w' : world) (ps : list path) :
  generate_individual_thumbnails cfg e video_path dir d w = Some (w', ps) ->
  num_thumbnails cfg d <= 10000 ->
  exists kept,
    ps = map (thumb_path dir) kept
    /\ StronglySorted lt kept
    /\ manifest_entries ps dir = map thumb_filename kept.
Proof.
  intros Hs Hn.
  apply sampler_inv in Hs as (_ & (kept & Hsub & ->) & _).
  apply sublist_seq_sorted in Hsub as [Hsorted Hb].
  exists kept. split; [reflexivity|]. split; [exact Hsorted|].
  unfold manifest_entries. rewrite sorted_frames_in_order.
  - rewrite map_map. apply map_ext. intros i. unfold thumb_path.
    now rewrite relpath_in_dir.
  - exact Hsorted.
  - eapply Forall_impl; [exact Hb|]. intros i Hi. simpl in Hi. lia.
Qed.

(** *** Frame 10000 *)

Lemma ltb_negb_leb (a b : string) : String.ltb a b = negb (String.leb b a).
Proof.
  unfold String.ltb, String.leb. rewrite (String.compare_antisym a b).
  now destruct (String.compare b a).
Qed.

Lemma thumb_path_ltb (dir : path) (a b : nat) :
  String.ltb (path_str (thumb_path dir a)) (path_str (thumb_path dir b))
  = String.ltb (thumb_filename a) (thumb_filename b).
Proof.
  destruct (path_str_in_dir dir) as [prefix H]. unfold thumb_path.
  rewrite !H. unfold String.ltb. now rewrite string_compare_app.
Qed.

Lemma frame_10000_after_1000 :
  String.leb (thumb_filename (Z.to_nat 1000)) (thumb_filename (Z.to_nat 10000))
  = true.
Proof. vm_compute. reflexivity. Qed.

Lemma frame_10000_before_1001 :
  String.ltb (thumb_filename (Z.to_nat 10000)) (thumb_filename (Z.to_nat 1001))
  = true.
Proof. vm_compute. reflexivity. Qed.

Lemma frame_10000_not_before (i : nat) :
  (i <= Z.to_nat 1000)%nat ->
  String.ltb (thumb_filename (Z.to_nat 10000)) (thumb_filename i) = false.
Proof.
  intros Hi. apply ltb_false_of_leb, Is_true_true.
  change (String.le (thumb_filename i) (thumb_filename (Z.to_nat 10000))).
  transitivity (thumb_filename (Z.to_nat 1000)); unfold String.le;
    apply Is_true_true; [apply thumb_names_ordered; lia|].
  exact frame_10000_after_1000.
Qed.

Lemma frame_10000_before (i : nat) :
  (Z.to_nat 1001 <= i)%nat -> (i < Z.to_nat 10000)%nat ->
  String.ltb (thumb_filename (Z.to_nat 10000)) (thumb_filename i) = true.
Proof.
  intros Hlo Hhi. rewrite ltb_negb_leb.
  destruct (String.leb (thumb_filename i) (thumb_filename (Z.to_nat 10000)))
    eqn:E; [exfalso|reflexivity].
  assert (H : String.le (thumb_filename (Z.to_nat 1001))
                (thumb_filename (Z.to_nat 10000))).
  { transitivity (thumb_filename i); unfold String.le; apply Is_true_true;
      [apply thumb_names_ordered; lia | exact E]. }
  pose proof frame_10000_before_1001 as Hlt. rewrite ltb_negb_leb in Hlt.
  unfold String.le in H.
  pose proof (proj1 (Is_true_true (String.leb (thumb_filename (Z.to_nat 1001))
                                     (thumb_filename (Z.to_nat 10000)))) H) as H'.
  rewrite H' in Hlt. discriminate Hlt.
Qed.

(** Inserting, from the right, frames that sort after [x] into [x :: rest]
    keeps [x] in front; frames that do not sort after [x] stay before it. *)
Lemma insert_frames_after (dir : path) (x : nat) (l : list nat) :
  StronglySorted lt l ->
  Forall (fun i => (i < Z.to_nat 10000)%nat) l ->
  Forall (fun i => String.ltb (thumb_filename x) (thumb_filename i) = true) l ->
  fold_right insert_sorted [thumb_path dir x] (map (thumb_path dir) l)
  = thumb_path dir x :: map (thumb_path dir) l.
Proof.
  induction l as [|i l IH]; intros Hs Hb Hx; [reflexivity|].
  apply StronglySorted_inv in Hs as [Hs Hlt].
  apply Forall_cons in Hb as [Hi Hb]. apply Forall_cons in Hx as [Hxi Hx].
  cbn [map fold_right]. rewrite IH by assumption.
  cbn [insert_sorted]. rewrite thumb_path_ltb, Hxi. f_equal.
  apply insert_sorted_head. intros q Hq.
  destruct l as [|j l']; [discriminate|]. injection Hq as <-.
  rewrite thumb_path_ltb. apply ltb_false_of_leb.
  apply Forall_cons in Hlt as [Hij _]. apply Forall_cons in Hb as [Hj _].
  apply thumb_names_ordered; lia.
Qed.

Lemma insert_frames_before (dir : path) (x : nat) (rest : list path)
    (l : list nat) :
  StronglySorted lt l ->
  Forall (fun i => (i < Z.to_nat 10000)%nat) l ->
  Forall (fun i => String.ltb (thumb_filename x) (thumb_filename i) = false) l ->
  fold_right insert_sorted (thumb_path dir x :: rest) (map (thumb_path dir) l)
  = (map (thumb_path dir) l ++ thumb_path dir x :: rest)%list.
Proof.
  induction l as [|i l IH]; intros Hs Hb Hx; [reflexivity|].
  apply StronglySorted_inv in Hs as [Hs Hlt].
  apply Forall_cons in Hb as [Hi Hb]. apply Forall_cons in Hx as [Hxi Hx].
  cbn [map fold_right]. rewrite IH by assumption.
  rewrite insert_sorted_head; [reflexivity|]. intros q Hq.
  destruct l as [|j l'].
  - injection Hq as <-. now rewrite thumb_path_ltb.
  - injection Hq as <-. rewrite thumb_path_ltb. apply ltb_false_of_leb.
    apply Forall_cons in Hlt as [Hij _]. apply Forall_cons in Hb as [Hj _].
    apply thumb_names_ordered; lia.
Qed.

Lemma seq_sorted (a n : nat) :
  StronglySorted lt (seq a n) /\ Forall (fun i => (a <= i < a + n)%nat) (seq a n).
Proof. now apply sublist_seq_sorted. Qed.

(** When frames 0 to 10000 are listed by index, [sorted] moves frame 10000
    to position 1001. *)
Lemma sorted_with_frame_10000 (dir : path) :
  sorted (map (thumb_path dir) (seq 0 (Z.to_nat 10001)))
  = map (thumb_path dir)
      (seq 0 (Z.to_nat 1001) ++ Z.to_nat 10000
       :: seq (Z.to_nat 1001) (Z.to_nat 8999))%list.
Proof.
  set (a := Z.to_nat 1001). set (b := Z.to_nat 8999). set (x := Z.to_nat 10000).
  replace (Z.to_nat 10001) with (a + (b + 1))%nat by (subst a b; lia).
  rewrite !seq_app. cbn [seq]. replace (0 + a + b)%nat with x by (subst a b x; lia).
  rewrite Nat.add_0_l. unfold sorted. rewrite !map_app, !fold_right_app.
  cbn [map fold_right insert_sorted].
  destruct (seq_sorted a b) as [Hs2 Hb2]. destruct (seq_sorted 0 a) as [Hs1 Hb1].
  rewrite insert_frames_after.
  - rewrite insert_frames_before; [reflexivity | exact Hs1 | |].
    + eapply Forall_impl; [exact Hb1|]. intros i Hi. simpl in Hi. subst a. lia.
    + eapply Forall_impl; [exact Hb1|]. intros i Hi. simpl in Hi.
      apply frame_10000_not_before. subst a. lia.
  - exact Hs2.
  - eapply Forall_impl; [exact Hb2|]. intros i Hi. simpl in Hi. subst a b. lia.
  - eapply Forall_impl; [exact Hb2|]. intros i Hi. simpl in Hi.
    apply frame_10000_before; subst a b; lia.
Qed.

Lemma startup_fresh (job name : string) :
  files startup !! (job_dir job ++ [name])%list = None.
Proof.
  unfold startup, startup_files. cbn [files].
  rewrite !lookup_insert_ne by discriminate. apply lookup_empty.
Qed.

Lemma lookup_around {A : Type} (f : nat -> A) (a x : nat) (rest : list nat) :
  (forall i, (i < a)%nat -> map f (seq 0 a ++ x :: rest)%list !! i = Some (f i))
  /\ map f (seq 0 a ++ x :: rest)%list !! a = Some (f x)
  /\ map f (seq 0 a ++ x :: rest)%list !! S a = f <$> head rest.
Proof.
  split; [|split].
  - intros i Hi. rewrite list_lookup_fmap, lookup_app_l by (rewrite length_seq; lia).
    now rewrite lookup_seq_lt by lia.
  - rewrite list_lookup_fmap, lookup_app_r by (rewrite length_seq; lia).
    rewrite length_seq, Nat.sub_diag. reflexivity.
  - rewrite list_lookup_fmap, lookup_app_r by (rewrite length_seq; lia).
    rewrite length_seq. replace (S a - a)%nat with 1%nat by lia.
    destruct rest; reflexivity.
Qed.

Lemma manifest_of_sorted (dir : path) (l l' : list nat) :
  sorted (map (thumb_path dir) l) = map (thumb_path dir) l' ->
  manifest_entries (map (thumb_path dir) l) dir = map thumb_filename l'.
Proof.
  intros H. unfold manifest_entries. rewrite H, map_map.
  apply map_ext. intros i. unfold thumb_path. now rewrite relpath_in_dir.
Qed.

Lemma long_video_frame_count : num_thumbnails app_config 50005 = 10001.
Proof. vm_compute. reflexivity. Qed.

(** A video of 50005 seconds all of whose frames survive: the job
    succeeds and tiles frames 0 to 10000. *)
Lemma long_video_succeeds :
  exists w',
    generate app_config (all_ok 50005) (Some "http://host/long.mp4") "job" startup
    = (w', Success (asset_url "job" SPRITE_FILENAME) (asset_url "job" VTT_FILENAME))
    /\ tile_inputs w'
       = manifest_entries
           (map (thumb_path (job_dir "job")) (seq 0 (Z.to_nat 10001)))
           (job_dir "job").
Proof.
  destruct (generate_succeeds app_config (all_ok 50005) "http://host/long.mp4"
              "job" startup 1000 50005 ltac:(discriminate) eq_refl eq_refl
              eq_refl eq_refl eq_refl eq_refl (fun _ => eq_refl)
              (startup_fresh "job")) as (w' & Hgen & _ & Htile).
  { rewrite filter_all by reflexivity. rewrite long_video_frame_count.
    unfold Py.range. intros H. apply (f_equal List.length) in H.
    rewrite length_seq in H. cbn [List.length] in H. lia. }
  rewrite filter_all, long_video_frame_count in Htile by reflexivity.
  exists w'. split; [exact Hgen | exact Htile].
Qed.

Lemma frame_names_near_1000 :
  thumb_filename (Z.to_nat 1000) = "thumb_1000.jpg"
  /\ thumb_filename (Z.to_nat 10000) = "thumb_10000.jpg"
  /\ thumb_filename (Z.to_nat 1001) = "thumb_1001.jpg".
Proof. vm_compute. repeat split; reflexivity. Qed.

(** C8 on the code: [sorted] orders the paths as strings and the frame
    number is padded to four digits only.  In a video of 50005 seconds all
    of whose 10001 frames survive, the job succeeds and the tiling tool is
    given frame 10000 at position 1001, between frames 1000 and 1001,
    while the cue file places it at position 10000. *)
Theorem long_video_tiles_out_of_order :
  exists w',
    generate app_config (all_ok 50005) (Some "http://host/long.mp4") "job" startup
    = (w', Success "/thumbnails/job/sprite.jpg" "/thumbnails/job/sprite.vtt")
    /\ tile_inputs w'
       = map thumb_filename
           (seq 0 (Z.to_nat 1001) ++ Z.to_nat 10000
            :: seq (Z.to_nat 1001) (Z.to_nat 8999))%list
    /\ tile_inputs w' !! Z.to_nat 1000 = Some "thumb_1000.jpg"
    /\ tile_inputs w' !! Z.to_nat 1001 = Some "thumb_10000.jpg"
    /\ tile_inputs w' !! Z.to_nat 1002 = Some "thumb_1001.jpg".
Proof.
  destruct long_video_succeeds as (w' & Hgen & Htile).
  pose proof (eq_trans Htile
                (manifest_of_sorted _ _ _ (sorted_with_frame_10000 (job_dir "job"))))
    as Hin.
  destruct frame_names_near_1000 as (N1 & N2 & N3).
  destruct (lookup_around thumb_filename (Z.to_nat 1001) (Z.to_nat 10000)
              (seq (Z.to_nat 1001) (Z.to_nat 8999))) as (L1 & L2 & L3).
  exists w'. split; [exact Hgen|]. split; [exact Hin|]. rewrite Hin.
  split; [|split].
  - rewrite L1 by lia. exact (f_equal Some N1).
  - rewrite L2. exact (f_equal Some N2).
  - replace (Z.to_nat 1002) with (S (Z.to_nat 1001)) by lia. rewrite L3.
    replace (Z.to_nat 8999) with (S (Z.to_nat 8998)) by lia.
    cbn [seq head fmap option_fmap option_map]. exact (f_equal Some N3).
Qed.

(** * Further properties of the pipeline *)

(** ** What each stage writes *)

Lemma leave_output_files_other (p q : path) (o : option N) (w : world) :
  q <> p -> files (leave_output p o w) !! q = files w !! q.
Proof.
  intros Hq. destruct o; [|reflexivity]. simpl. now apply lookup_insert_ne.
Qed.

Lemma download_video_files_other (e : env) (url : string) (p q : path) (w : world) :
  q <> p -> files (download_video e url p w).1 !! q = files w !! q.
Proof.
  intros Hq. unfold download_video.
  destruct (download_result e) as [n|partial]; simpl.
  - now apply lookup_insert_ne.
  - now rewrite leave_output_files_other.
Qed.

(** The composer writes the manifest and the sprite, nothing else. *)
Lemma create_sprite_image_files_other (cfg : config) (e : env) (ps : list path)
    (output_path : path) (w w' : world) (ok : bool) (q : path) :
  create_sprite_image cfg e ps output_path w = Some (w', ok) ->
  q <> output_path ->
  q <> (dirname output_path ++ ["input_thumbs.txt"])%list ->
  files w' !! q = files w !! q.
Proof.
  intros H Hout Hman. unfold create_sprite_image in H.
  destruct ps as [|p ps]; [now injection H as <- _|].
  destruct (THUMBS_PER_ROW cfg =? 0); [discriminate|].
  destruct (write_fails e _).
  - injection H as <- _. now rewrite remove_if_exists_other.
  - injection H as <- _. rewrite remove_if_exists_other by exact Hman.
    rewrite leave_output_files_other by exact Hout.
    cbn [files record_call write_file]. now apply lookup_insert_ne.
Qed.

Lemma create_vtt_file_files_other (cfg : config) (e : env) (output_dir : path)
    (n : nat) (interval : Q) (url : string) (w : world) (q : path) :
  q <> (output_dir ++ [VTT_FILENAME])%list ->
  files (create_vtt_file cfg e output_dir n interval url w).1 !! q = files w !! q.
Proof.
  intros Hq. unfold create_vtt_file.
  destruct (write_fails e _);
    [destruct (partial_write e _); simpl; [now apply lookup_insert_ne | reflexivity]|].
  destruct (_ && _); simpl; now apply lookup_insert_ne.
Qed.

(** The [try] block writes the video and files directly inside the job's
    workspace; the paths it hands to the [finally] block are frame paths. *)
Lemma generate_try_frame (cfg : config) (e : env) (url job : string) (w : world) :
  (forall q, q <> job_video_path job ->
             (forall name, q <> job_dir job ++ [name])%list ->
             files (generate_try cfg e url job w).1.1 !! q = files w !! q)
  /\ exists kept,
       (generate_try cfg e url job w).1.2 = map (thumb_path (job_dir job)) kept.
Proof.
  assert (Hdl : forall q, q <> job_video_path job ->
            files (download_video e url (job_video_path job) w).1 !! q
            = files w !! q)
    by (intros q Hq; now apply download_video_files_other).
  unfold generate_try.
  destruct (download_video e url (job_video_path job) w) as [w1 [|]];
    [|split; [intros q Hq _; now apply Hdl | now exists []]].
  simpl in Hdl. unfold get_video_duration.
  destruct (probe_result e) as [d|];
    [|split; [intros q Hq _; now apply Hdl | now exists []]].
  destruct (Qle_bool d 0);
    [split; [intros q Hq _; now apply Hdl | now exists []]|].
  destruct (generate_individual_thumbnails _ _ _ _ _ _) as [[w3 ps]|] eqn:Hs;
    [|split; [intros q Hq _; now apply Hdl | now exists []]].
  apply sampler_inv in Hs as (_ & (kept & _ & Hps) & Hother).
  assert (H3 : forall q, q <> job_video_path job ->
            (forall name, q <> job_dir job ++ [name])%list ->
            files w3 !! q = files w !! q).
  { intros q Hq Hname. rewrite Hother; [now apply Hdl|].
    intros i. apply Hname. }
  destruct ps as [|p ps]; [split; [exact H3 | now exists []]|].
  destruct (create_sprite_image _ _ _ _ _) as [[w4 ok]|] eqn:Hc;
    [|split; [exact H3 | now exists kept]].
  assert (H4 : forall q, q <> job_video_path job ->
            (forall name, q <> job_dir job ++ [name])%list ->
            files w4 !! q = files w !! q).
  { intros q Hq Hname.
    rewrite (create_sprite_image_files_other _ _ _ _ _ _ _ q Hc);
      [now apply H3 | apply Hname | apply Hname]. }
  destruct ok; [|split; [exact H4 | now exists kept]].
  destruct (create_vtt_file _ _ _ _ _ _ _) as [w5 okv] eqn:Hv.
  assert (H5 : forall q, q <> job_video_path job ->
            (forall name, q <> job_dir job ++ [name])%list ->
            files w5 !! q = files w !! q).
  { intros q Hq Hname. change w5 with (w5, okv).1. rewrite <- Hv.
    rewrite create_vtt_file_files_other by apply Hname. now apply H4. }
  destruct okv; (split; [exact H5 | now exists kept]).
Qed.

Lemma os_makedirs_job_dir_other (job : string) (w : world) (q : path) :
  q <> [THUMBNAIL_FOLDER] -> q <> job_dir job ->
  files (os_makedirs (job_dir job) w) !! q = files w !! q.
Proof.
  intros H1 H2. unfold os_makedirs, job_dir. cbn [makedirs_from app].
  destruct (os_path_exists [THUMBNAIL_FOLDER] w);
    match goal with |- context [if ?b then _ else _] => destruct b end;
    cbn [files]; rewrite ?lookup_insert_ne; auto.
Qed.

Lemma thumb_path_is_child (job : string) (kept : list nat) (q : path) :
  (forall name, q <> job_dir job ++ [name])%list ->
  q ∉ map (thumb_path (job_dir job)) kept.
Proof.
  intros Hname H. apply list_elem_of_In in H. apply in_map_iff in H.
  destruct H as (i & Hi & _). now apply (Hname (thumb_filename i)).
Qed.

(** After the workspace directory exists, the rest of [generate] changes
    only the video and the files directly inside the workspace. *)
Lemma generate_frame (cfg : config) (e : env) (url : option string)
    (job : string) (w : world) (q : path) :
  q <> job_video_path job ->
  q <> [THUMBNAIL_FOLDER] -> q <> job_dir job ->
  (forall name, q <> job_dir job ++ [name])%list ->
  files (generate cfg e url job w).1 !! q = files w !! q.
Proof.
  intros Hv Ht Hj Hname. unfold generate.
  destruct url as [[|c u]|]; try reflexivity.
  destruct (generate_try_frame cfg e (String c u) job
              (os_makedirs (job_dir job) w)) as [Hfr [kept Hps]].
  destruct (generate_try _ _ _ _ _) as [[w5 ps] resp]. simpl in *.
  rewrite generate_finally_other;
    [| exact Hv | rewrite Hps; now apply thumb_path_is_child].
  rewrite Hfr by assumption. now apply os_makedirs_job_dir_other.
Qed.

(** X1.  A job leaves every path alone except its own video file, the
    thumbnail folder, its workspace directory and the files directly
    inside that workspace: whatever the URL, the environment and the
    outcome, any other path holds after the job what it held before. *)
Theorem job_touches_only_its_files (cfg : config) (e : env) (url : option string)
    (job : string) (w : world) (q : path) :
  q <> job_video_path job ->
  q <> [THUMBNAIL_FOLDER] ->
  q <> job_dir job ->
  (forall name, q <> job_dir job ++ [name])%list ->
  files (generate cfg e url job w).1 !! q = files w !! q.
Proof.
  intros Hv Ht Hj Hname. unfold generate.
  destruct url as [[|c u]|]; try reflexivity.
  destruct (generate_try_frame cfg e (String c u) job
              (os_makedirs (job_dir job) w)) as [Hfr [kept Hps]].
  destruct (generate_try _ _ _ _ _) as [[w5 ps] resp]. simpl in *.
  rewrite generate_finally_other;
    [| exact Hv | rewrite Hps; now apply thumb_path_is_child].
  rewrite Hfr by assumption. now apply os_makedirs_job_dir_other.
Qed.

Lemma job_touches_only_its_files_witness :
  ["app.py"] <> job_video_path "job"
  /\ files (generate app_config (all_ok 23) (Some "http://host/film.mp4") "job"
              startup).1 !! ["app.py"]
     = Some (File (Binary 14000)).
Proof.
  split; [discriminate|].
  exact (job_touches_only_its_files app_config (all_ok 23)
           (Some "http://host/film.mp4") "job" startup ["app.py"]
           ltac:(discriminate) ltac:(discriminate) ltac:(discriminate)
           ltac:(discriminate)).
Defined.

(** X2.  Jobs with different identifiers do not disturb each other: a
    second job, whatever it does, leaves every file of the first job's
    workspace (its sprite, its cue file) as it was. *)
Theorem jobs_do_not_interfere (cfg : config) (e : env) (url : option string)
    (job other name : string) (w : world) :
  other <> job ->
  files (generate cfg e url other w).1 !! (job_dir job ++ [name])%list
  = files w !! (job_dir job ++ [name])%list.
Proof.
  intros Hne. apply generate_frame; try discriminate.
  intros name' H. injection H as H _. congruence.
Qed.

Lemma jobs_do_not_interfere_witness :
  "second" <> "first"
  /\ let w1 := (generate app_config (all_ok 23) (Some "http://host/a.mp4")
                  "first" startup).1 in
     files (generate app_config (empty_frames 3) (Some "http://host/b.mp4")
              "second" w1).1 !! (job_dir "first" ++ [VTT_FILENAME])%list
     = files w1 !! (job_dir "first" ++ [VTT_FILENAME])%list.
Proof.
  split; [discriminate|].
  exact (jobs_do_not_interfere app_config (empty_frames 3)
           (Some "http://host/b.mp4") "first" "second" VTT_FILENAME _
           ltac:(discriminate)).
Defined.

(** ** Responses and early failures *)

Lemma generate_try_response (cfg : config) (e : env) (url job : string) (w : world) :
  (generate_try cfg e url job w).2
  = Success (asset_url job SPRITE_FILENAME) (asset_url job VTT_FILENAME)
  \/ exists m, (generate_try cfg e url job w).2 = Error 500 m.
Proof.
  unfold generate_try.
  destruct (download_video _ _ _ _) as [w1 [|]]; [|right; eauto].
  unfold get_video_duration.
  destruct (probe_result e) as [d|]; [|right; eauto].
  destruct (Qle_bool d 0); [right; eauto|].
  destruct (generate_individual_thumbnails _ _ _ _ _ _) as [[w3 [|p ps]]|];
    [right; eauto | | right; unfold unexpected; eauto].
  destruct (create_sprite_image _ _ _ _ _) as [[w4 [|]]|];
    [| right; eauto | right; unfold unexpected; eauto].
  destruct (create_vtt_file _ _ _ _ _ _ _) as [w5 [|]]; [left|right]; eauto.
Qed.

(** X3.  The answers of [generate].  Without a video URL (absent or
    empty) the answer is the 400 error and nothing at all is touched, not
    even the workspace directory; with a URL the answer is either the two
    asset URLs of this job or an error with status 500. *)
Theorem generate_answers (cfg : config) (e : env) (url : option string)
    (job : string) (w : world) :
  ((url = None \/ url = Some "")
   /\ generate cfg e url job w = (w, Error 400 "Video URL is required."))
  \/ exists u w',
       url = Some u /\ u <> ""
       /\ (generate cfg e url job w
           = (w', Success (asset_url job SPRITE_FILENAME)
                    (asset_url job VTT_FILENAME))
           \/ exists m, generate cfg e url job w = (w', Error 500 m)).
Proof.
  destruct url as [[|c u]|]; [left; auto | | left; auto].
  right. unfold generate.
  pose proof (generate_try_response cfg e (String c u) job
                (os_makedirs (job_dir job) w)) as H.
  destruct (generate_try _ _ _ _ _) as [[w5 ps] resp]. simpl in H.
  exists (String c u). eexists. split; [reflexivity|]. split; [discriminate|].
  destruct H as [->|[m ->]]; [left; reflexivity | right; eauto].
Qed.

(** X4.  A failed download ends the job at once: the answer is the
    download error, the only request made is the download itself (no
    probe, no extraction, no tiling), a partly written video file is
    removed again, and nothing inside the workspace is touched. *)
Theorem download_failure_stops_job (cfg : config) (e : env) (url job : string)
    (w : world) (partial : option N) :
  url <> "" ->
  download_result e = DownloadFailed partial ->
  remove_fails e (job_video_path job) = false ->
  exists w',
    generate cfg e (Some url) job w
    = (w', Error 500 "Failed to download video. Please check the URL or network access.")
    /\ calls w' = (calls w ++ [HttpGet url (job_video_path job)])%list
    /\ files w' !! job_video_path job = None
    /\ forall name,
         files w' !! (job_dir job ++ [name])%list
         = files w !! (job_dir job ++ [name])%list.
Proof.
  intros Hurl Hdl Hrm. eexists. split; [|split; [|split]].
  - unfold generate. destruct url as [|c u]; [congruence|].
    unfold generate_try, download_video. rewrite Hdl. reflexivity.
  - unfold generate_finally. cbn [fold_left].
    rewrite remove_if_exists_calls, leave_output_calls. cbn [calls record_call].
    unfold os_makedirs. now rewrite makedirs_from_calls.
  - unfold generate_finally. cbn [fold_left]. now apply remove_if_exists_gone.
  - intros name. unfold generate_finally. cbn [fold_left].
    rewrite remove_if_exists_other, leave_output_files_other by discriminate.
    cbn [files record_call]. unfold os_makedirs.
    now rewrite makedirs_from_files_longer by (simpl; lia).
Qed.

Lemma download_failure_stops_job_witness :
  "http://host/gone.mp4" <> ""
  /\ download_result download_broken = DownloadFailed (Some 512%N)
  /\ remove_fails download_broken (job_video_path "job") = false
  /\ exists w',
       generate app_config download_broken (Some "http://host/gone.mp4") "job"
         startup
       = (w', Error 500 "Failed to download video. Please check the URL or network access.")
       /\ calls w' = [HttpGet "http://host/gone.mp4" (job_video_path "job")].
Proof.
  split; [discriminate|]. split; [reflexivity|]. split; [reflexivity|].
  destruct (download_failure_stops_job app_config download_broken
              "http://host/gone.mp4" "job" startup (Some 512%N)
              ltac:(discriminate) eq_refl eq_refl) as (w' & Hgen & Hcalls & _).
  exists w'. split; [exact Hgen | exact Hcalls].
Defined.

(** X5.  A probe that gives no duration, or one that is not positive,
    ends the job after the probe: the answer is the duration error, no
    frame is requested, the downloaded video is removed and nothing inside
    the workspace is touched. *)
Theorem bad_duration_stops_job (cfg : config) (e : env) (url job : string)
    (w : world) (n : N) :
  url <> "" ->
  download_result e = Downloaded n ->
  (forall d, probe_result e = Some d -> (d <= 0)%Q) ->
  remove_fails e (job_video_path job) = false ->
  exists w',
    generate cfg e (Some url) job w
    = (w', Error 500 "Could not get valid video duration. Video might be corrupted or empty.")
    /\ calls w'
       = (calls w ++ [HttpGet url (job_video_path job);
                      Ffprobe (job_video_path job)])%list
    /\ files w' !! job_video_path job = None
    /\ forall name,
         files w' !! (job_dir job ++ [name])%list
         = files w !! (job_dir job ++ [name])%list.
Proof.
  intros Hurl Hdl Hp Hrm.
  exists (generate_finally e (job_video_path job) []
            (probed_world url job n (os_makedirs (job_dir job) w))).
  split; [|split; [|split]].
  - unfold generate. destruct url as [|c u]; [congruence|].
    unfold generate_try, download_video, get_video_duration. rewrite Hdl.
    fold (probed_world (String c u) job n (os_makedirs (job_dir job) w)).
    destruct (probe_result e) as [d|]; [|reflexivity].
    assert (Hd : Qle_bool d 0 = true) by (apply Qle_bool_iff; now apply Hp).
    now rewrite Hd.
  - rewrite generate_finally_calls. unfold probed_world, os_makedirs.
    cbn [calls record_call write_file]. rewrite makedirs_from_calls.
    now rewrite <- app_assoc.
  - unfold generate_finally. cbn [fold_left]. now apply remove_if_exists_gone.
  - intros name. rewrite generate_finally_other;
      [apply probed_world_workspace | discriminate | apply not_elem_of_nil].
Qed.

Lemma bad_duration_stops_job_witness :
  "http://host/odd.mp4" <> ""
  /\ download_result probe_broken = Downloaded 1000
  /\ (forall d, probe_result probe_broken = Some d -> (d <= 0)%Q)
  /\ remove_fails probe_broken (job_video_path "job") = false
  /\ exists w',
       generate app_config probe_broken (Some "http://host/odd.mp4") "job" startup
       = (w', Error 500 "Could not get valid video duration. Video might be corrupted or empty.")
       /\ files w' !! job_video_path "job" = None.
Proof.
  split; [discriminate|]. split; [reflexivity|].
  split; [intros d H; discriminate H|]. split; [reflexivity|].
  destruct (bad_duration_stops_job app_config probe_broken
              "http://host/odd.mp4" "job" startup 1000
              ltac:(discriminate) eq_refl
              (fun d (H : probe_result probe_broken = Some d) =>
                 match H in (_ = o) return
                   match o with Some _ => (d <= 0)%Q | None => True end
                 with eq_refl => I end)
              eq_refl) as (w' & Hgen & _ & Hvideo & _).
  exists w'. split; [exact Hgen | exact Hvideo].
Defined.

(** ** The fields of a timestamp *)

Section Floors.

Local Open Scope Q_scope.

Lemma Qfloor_div_Z (t : Q) (k : Z) :
  (0 < k)%Z -> Qfloor (t / inject_Z k) = (Qfloor t / k)%Z.
Proof.
  intros Hk.
  assert (Hkq : inject_Z 0 < inject_Z k) by now rewrite <- Zlt_Qlt.
  apply Qfloor_unique.
  - apply Qle_shift_div_l; [exact Hkq|].
    rewrite <- inject_Z_mult. eapply Qle_trans; [|apply Qfloor_le].
    rewrite <- Zle_Qle. pose proof (Z.mul_div_le (Qfloor t) k Hk). lia.
  - apply Qlt_shift_div_r; [exact Hkq|].
    rewrite <- inject_Z_mult. eapply Qlt_le_trans; [apply Qlt_floor|].
    rewrite <- Zle_Qle. pose proof (Z.mul_succ_div_gt (Qfloor t) k Hk). lia.
Qed.

Lemma Qfloor_sub_Z (t : Q) (z : Z) :
  Qfloor (t - inject_Z z) = (Qfloor t - z)%Z.
Proof.
  pose proof (Qfloor_le t) as Hlo. pose proof (Qlt_floor t) as Hhi.
  rewrite inject_Z_plus in Hhi.
  apply Qfloor_unique.
  - unfold Z.sub. rewrite inject_Z_plus, inject_Z_opp. lra.
  - unfold Z.sub. rewrite !inject_Z_plus, inject_Z_opp.
    change (inject_Z 1) with 1 in *. lra.
Qed.

Lemma Py_mod_eq (t : Q) (k : Z) :
  (0 < k)%Z ->
  Py.mod_ t (inject_Z k) == t - inject_Z (k * (Qfloor t / k)).
Proof.
  intros Hk. unfold Py.mod_. rewrite Qfloor_div_Z by exact Hk.
  now rewrite inject_Z_mult.
Qed.

Lemma Py_mod_floor (t : Q) (k : Z) :
  (0 < k)%Z -> Qfloor (Py.mod_ t (inject_Z k)) = (Qfloor t mod k)%Z.
Proof.
  intros Hk. rewrite (Py_mod_eq t k Hk), Qfloor_sub_Z.
  rewrite Z.mod_eq by lia. reflexivity.
Qed.

Lemma Py_mod_nonneg (t : Q) (k : Z) :
  (0 < k)%Z -> 0 <= Py.mod_ t (inject_Z k).
Proof.
  intros Hk. rewrite (Py_mod_eq t k Hk).
  assert (H : inject_Z (k * (Qfloor t / k)) <= t).
  { eapply Qle_trans; [|apply Qfloor_le]. rewrite <- Zle_Qle.
    now apply Z.mul_div_le. }
  lra.
Qed.

Lemma Py_int_nonneg (x : Q) : 0 <= x -> Py.int x = Qfloor x.
Proof.
  intros H. unfold Py.int, Qfloor. destruct x as [n d].
  apply Z.quot_div_nonneg; [|reflexivity].
  unfold Qle in H. simpl in *. lia.
Qed.

End Floors.

Lemma hms_of_fields (t : Q) :
  let f := hms_of t in
  hms_hours f = Qfloor t / 3600
  /\ hms_minutes f = (Qfloor t mod 3600) / 60
  /\ hms_seconds f = Qfloor t mod 60
  /\ hms_millis f = Qfloor ((t - inject_Z (Qfloor t)) * 1000).
Proof.
  cbn zeta. split; [|split; [|split]].
  - cbn [hms_hours hms_of]. unfold Py.floordiv. rewrite Py_int_inject_Z.
    change 3600%Q with (inject_Z 3600). now apply Qfloor_div_Z.
  - cbn [hms_minutes hms_of]. unfold Py.floordiv. rewrite Py_int_inject_Z.
    change 60%Q with (inject_Z 60). change 3600%Q with (inject_Z 3600).
    rewrite Qfloor_div_Z by lia. now rewrite Py_mod_floor by lia.
  - cbn [hms_seconds hms_of]. change 60%Q with (inject_Z 60).
    rewrite Py_int_nonneg by (apply Py_mod_nonneg; lia).
    now apply Py_mod_floor.
  - pose proof (Qfloor_le t) as Hlo.
    cbn [hms_millis hms_of]. unfold Py.floor. apply Py_int_nonneg. lra.
Qed.

Lemma millis_in_range (t : Q) :
  0 <= Qfloor ((t - inject_Z (Qfloor t)) * 1000) < 1000.
Proof.
  pose proof (Qfloor_le t) as Hlo. pose proof (Qlt_floor t) as Hhi.
  rewrite inject_Z_plus in Hhi. change (inject_Z 1) with 1%Q in Hhi.
  split.
  - change 0 with (Qfloor 0). apply Qfloor_resp_le. lra.
  - assert (Hlt : ((t - inject_Z (Qfloor t)) * 1000 < inject_Z 1000)%Q)
      by (change (inject_Z 1000) with 1000%Q; lra).
    pose proof (Qfloor_le ((t - inject_Z (Qfloor t)) * 1000)) as Hf.
    assert (Hz : (inject_Z (Qfloor ((t - inject_Z (Qfloor t)) * 1000))
                  < inject_Z 1000)%Q) by (eapply Qle_lt_trans; eassumption).
    now rewrite <- Zlt_Qlt in Hz.
Qed.

(** ** Well-formed timestamp strings *)

Lemma matches_pattern_app (p1 p2 : list char_class) (s1 s2 : string) :
  matches_pattern p1 s1 = true -> matches_pattern p2 s2 = true ->
  matches_pattern (p1 ++ p2) (s1 ++ s2) = true.
Proof.
  revert s1. induction p1 as [|k p1 IH]; intros [|c s1] H1 H2;
    try discriminate H1.
  - exact H2.
  - change (matches_pattern (k :: (p1 ++ p2)%list) (String c (s1 ++ s2)) = true).
    cbn [matches_pattern] in *. apply andb_prop in H1 as [Hc H1].
    rewrite Hc. cbn [andb]. now apply IH.
Qed.

Lemma two_digit_numbers :
  all_from (Z.to_nat 100) 0
    (fun z => matches_pattern [Digit; Digit] (Py.format0 2 z)) = true.
Proof. vm_compute. reflexivity. Qed.

Lemma three_digit_numbers :
  all_from (Z.to_nat 1000) 0
    (fun z => matches_pattern [Digit; Digit; Digit] (Py.format0 3 z)) = true.
Proof. vm_compute. reflexivity. Qed.

Lemma format0_two_digits (z : Z) :
  0 <= z < 100 -> matches_pattern [Digit; Digit] (Py.format0 2 z) = true.
Proof.
  intros Hz.
  pose proof (all_from_spec _ _ _ two_digit_numbers (Z.to_nat z) ltac:(lia)) as H.
  cbv beta in H. now rewrite Z.add_0_l, Z2Nat.id in H by lia.
Qed.

Lemma format0_three_digits (z : Z) :
  0 <= z < 1000 ->
  matches_pattern [Digit; Digit; Digit] (Py.format0 3 z) = true.
Proof.
  intros Hz.
  pose proof (all_from_spec _ _ _ three_digit_numbers (Z.to_nat z) ltac:(lia)) as H.
  cbv beta in H. now rewrite Z.add_0_l, Z2Nat.id in H by lia.
Qed.

Lemma hms_fields_in_range (t : Q) :
  (0 <= t)%Q -> (t < 360000)%Q ->
  0 <= hms_hours (hms_of t) < 100
  /\ 0 <= hms_minutes (hms_of t) < 100
  /\ 0 <= hms_seconds (hms_of t) < 100
  /\ 0 <= hms_millis (hms_of t) < 1000.
Proof.
  intros Hlo Hhi.
  destruct (hms_of_fields t) as (Hh & Hm & Hs & Hms).
  assert (HF : 0 <= Qfloor t < 360000).
  { split.
    - change 0 with (Qfloor 0). now apply Qfloor_resp_le.
    - rewrite Zlt_Qlt. eapply Qle_lt_trans; [apply Qfloor_le | exact Hhi]. }
  pose proof (Z.mod_pos_bound (Qfloor t) 60 ltac:(lia)) as B60.
  pose proof (Z.mod_pos_bound (Qfloor t) 3600 ltac:(lia)) as B3600.
  rewrite Hh, Hm, Hs, Hms. split; [|split; [|split]].
  - split; [apply Z.div_pos; lia | apply Z.div_lt_upper_bound; lia].
  - split; [apply Z.div_pos; lia | apply Z.div_lt_upper_bound; lia].
  - lia.
  - apply millis_in_range.
Qed.

Lemma timestamp_str_shape (t : Q) :
  (0 <= t)%Q -> (t < 360000)%Q -> is_hms_string (timestamp_str t) = true.
Proof.
  intros Hlo Hhi.
  destruct (hms_fields_in_range t Hlo Hhi) as (Hhours & Hm & Hs & Hms).
  unfold is_hms_string, timestamp_str, hms_str.
  change hms_pattern
    with ([Digit; Digit] ++ [Exactly ":"%char] ++ [Digit; Digit]
          ++ [Exactly ":"%char] ++ [Digit; Digit] ++ [Exactly "."%char]
          ++ [Digit; Digit; Digit])%list.
  apply matches_pattern_app; [apply format0_two_digits; lia|].
  apply matches_pattern_app; [reflexivity|].
  apply matches_pattern_app; [apply format0_two_digits; lia|].
  apply matches_pattern_app; [reflexivity|].
  apply matches_pattern_app; [apply format0_two_digits; lia|].
  apply matches_pattern_app; [reflexivity|].
  apply format0_three_digits; lia.
Qed.

(** X7.  For every time from 0 up to, but not including, 100 hours the
    string built for it has the zero-padded shape [HH:MM:SS.mmm]: two
    digits, colon, two digits, colon, two digits, dot, three digits. *)
Theorem timestamp_str_well_formed (t : Q) :
  (0 <= t)%Q -> (t < 360000)%Q -> is_hms_string (timestamp_str t) = true.
Proof.
  intros Hlo Hhi.
  destruct (hms_fields_in_range t Hlo Hhi) as (Hhours & Hm & Hs & Hms).
  unfold is_hms_string, timestamp_str, hms_str.
  change hms_pattern
    with ([Digit; Digit] ++ [Exactly ":"%char] ++ [Digit; Digit]
          ++ [Exactly ":"%char] ++ [Digit; Digit] ++ [Exactly "."%char]
          ++ [Digit; Digit; Digit])%list.
  apply matches_pattern_app; [now apply format0_two_digits|].
  apply matches_pattern_app; [reflexivity|].
  apply matches_pattern_app; [now apply format0_two_digits|].
  apply matches_pattern_app; [reflexivity|].
  apply matches_pattern_app; [now apply format0_two_digits|].
  apply matches_pattern_app; [reflexivity|].
  now apply format0_three_digits.
Qed.

Lemma timestamp_str_well_formed_witness :
  (0 <= 229 # 10)%Q /\ (229 # 10 < 360000)%Q
  /\ is_hms_string (timestamp_str (229 # 10)) = true.
Proof.
  split; [discriminate|]. split; [reflexivity|].
  apply timestamp_str_well_formed; [discriminate | reflexivity].
Defined.

(** ** The sampler: survivors and spacing *)

Lemma filter_sublist {A : Type} (f : A -> bool) (l : list A) :
  sublist (List.filter f l) l.
Proof.
  induction l as [|x l IH]; simpl; [constructor|].
  destruct (f x); now constructor.
Qed.



(** Index [i] is requested only when [i * k] lies before the end. *)
Lemma index_below_count (cfg : config) (d : Q) (i : nat) :
  (0 < THUMBNAIL_INTERVAL cfg)%Q ->
  (i < Z.to_nat (num_thumbnails cfg d))%nat ->
  (inject_Z (Z.of_nat i) * THUMBNAIL_INTERVAL cfg < d)%Q.
Proof.
  intros Hk Hi. unfold num_thumbnails, Py.ceil in Hi.
  assert (H : (inject_Z (Z.of_nat i) < d / THUMBNAIL_INTERVAL cfg)%Q).
  { eapply Qle_lt_trans; [|apply Qceiling_lt]. rewrite <- Zle_Qle. lia. }
  apply (Qmult_lt_compat_r _ _ (THUMBNAIL_INTERVAL cfg)) in H; [|exact Hk].
  assert (E : (d / THUMBNAIL_INTERVAL cfg * THUMBNAIL_INTERVAL cfg == d)%Q).
  { field. intros H0. rewrite H0 in Hk. discriminate Hk. }
  now rewrite E in H.
Qed.

Lemma seek_position_bounds (cfg : config) (d : Q) (i : nat) :
  (1 # 10 <= d)%Q -> (0 <= THUMBNAIL_INTERVAL cfg)%Q ->
  (0 <= actual_timestamp cfg d i)%Q /\ (actual_timestamp cfg d i <= d - (1 # 10))%Q.
Proof.
  intros Hd Hk. split; [|apply Py_min_le_r].
  unfold actual_timestamp, seek_epsilon.
  destruct (Py_min_spec (inject_Z (Z.of_nat i) * THUMBNAIL_INTERVAL cfg)
              (d - (1 # 10))) as [[_ ->]|[_ ->]]; [lra|].
  apply Qmult_le_0_compat; [|exact Hk].
  change 0%Q with (inject_Z 0). rewrite <- Zle_Qle. lia.
Qed.

(** X9.  Frames are taken at evenly spaced positions: when the interval
    is at least the slack of 0.1 s, every requested frame except the last
    is sought at exactly [i * k]; only the last position can be pulled
    back, to [d - 0.1], and it lies less than 0.1 s before [i * k]. *)
Theorem frames_evenly_spaced (cfg : config) (d : Q) (i : nat) :
  (1 # 10 <= THUMBNAIL_INTERVAL cfg)%Q ->
  (i < Z.to_nat (num_thumbnails cfg d))%nat ->
  let k := THUMBNAIL_INTERVAL cfg in
  let position := (inject_Z (Z.of_nat i) * k)%Q in
  ((S i < Z.to_nat (num_thumbnails cfg d))%nat ->
   actual_timestamp cfg d i = position)
  /\ (actual_timestamp cfg d i <= position)%Q
  /\ (position < actual_timestamp cfg d i + (1 # 10))%Q.
Proof.
  intros Hk Hi k position.
  assert (Hk0 : (0 < THUMBNAIL_INTERVAL cfg)%Q) by lra.
  pose proof (index_below_count cfg d i Hk0 Hi) as Hlast.
  fold k in Hk, Hlast. fold position in Hlast.
  unfold actual_timestamp, seek_epsilon. fold k. fold position.
  destruct (Py_min_spec position (d - (1 # 10))) as [[Hlt Hmin]|[Hle Hmin]];
    rewrite Hmin.
  - split; [|split; lra]. intros Hnext.
    pose proof (index_below_count cfg d (S i) Hk0 Hnext) as Hn.
    fold k in Hn. rewrite Nat2Z.inj_succ, <- Z.add_1_r, inject_Z_plus in Hn.
    change (inject_Z 1) with 1%Q in Hn. unfold position in Hlt. exfalso. lra.
  - split; [reflexivity|]. split; lra.
Qed.

Lemma frames_evenly_spaced_witness :
  (1 # 10 <= THUMBNAIL_INTERVAL app_config)%Q
  /\ (3 < Z.to_nat (num_thumbnails app_config 23))%nat
  /\ (actual_timestamp app_config 23 3 <= inject_Z (Z.of_nat 3) * 5)%Q.
Proof.
  split; [discriminate|]. split; [vm_compute; lia|].
  exact (proj1 (proj2 (frames_evenly_spaced app_config 23 3
                         ltac:(discriminate) ltac:(vm_compute; lia)))).
Defined.

(** X10.  For a video of at least 0.1 s and less than 100 hours, every
    seek position is between 0 and [d - 0.1] and its seek string has the
    shape [HH:MM:SS.mmm]. *)
Theorem seek_strings_well_formed (cfg : config) (d : Q) (i : nat) :
  (1 # 10 <= d)%Q -> (d < 360000)%Q -> (0 <= THUMBNAIL_INTERVAL cfg)%Q ->
  (0 <= actual_timestamp cfg d i <= d - (1 # 10))%Q
  /\ is_hms_string (timestamp_str (actual_timestamp cfg d i)) = true.
Proof.
  intros Hd Hmax Hk.
  pose proof (seek_position_bounds cfg d i Hd Hk) as [Hlo Hhi].
  split; [split; assumption|]. apply timestamp_str_shape; lra.
Qed.

Lemma seek_strings_well_formed_witness :
  (1 # 10 <= 23)%Q /\ (23 < 360000)%Q /\ (0 <= THUMBNAIL_INTERVAL app_config)%Q
  /\ is_hms_string (timestamp_str (actual_timestamp app_config 23 4)) = true.
Proof.
  split; [discriminate|]. split; [reflexivity|]. split; [discriminate|].
  exact (proj2 (seek_strings_well_formed app_config 23 4
                  ltac:(discriminate) eq_refl ltac:(discriminate))).
Defined.

(** ** The cue file: times and rectangles *)

(** X11.  Within the first 24 hours the cues tile the timeline: when the
    interval is not negative and entry [i] ends by 86399.999, its end is
    exactly its start plus the interval and coincides with the start of
    entry [i + 1], and it does not end before it starts. *)
Theorem cues_are_contiguous (cfg : config) (k : Q) (i : nat) :
  (0 <= k)%Q ->
  (inject_Z (Z.of_nat (S i)) * k <= 86399999 # 1000)%Q ->
  end_time_sec (cue_of cfg k i) = (start_time_sec (cue_of cfg k i) + k)%Q
  /\ (end_time_sec (cue_of cfg k i) == start_time_sec (cue_of cfg k (S i)))%Q
  /\ (start_time_sec (cue_of cfg k i) <= end_time_sec (cue_of cfg k i))%Q.
Proof.
  intros Hk Hcap.
  assert (Hnext : (inject_Z (Z.of_nat i) * k + k
                   == inject_Z (Z.of_nat (S i)) * k)%Q).
  { rewrite Nat2Z.inj_succ, <- Z.add_1_r, inject_Z_plus.
    change (inject_Z 1) with 1%Q. ring. }
  assert (Hend : end_time_sec (cue_of cfg k i)
                 = (inject_Z (Z.of_nat i) * k + k)%Q).
  { cbn [cue_of end_time_sec]. unfold VTT_MAX_SECONDS.
    destruct (Py_min_spec (inject_Z (Z.of_nat i) * k + k) (86399999 # 1000))
      as [[Hlt _]|[_ ->]]; [|reflexivity].
    exfalso. rewrite Hnext in Hlt. lra. }
  rewrite Hend, !cue_start_spec. split; [reflexivity|].
  split; [exact Hnext | lra].
Qed.

Lemma cues_are_contiguous_witness :
  (0 <= 5)%Q /\ (inject_Z (Z.of_nat 3) * 5 <= 86399999 # 1000)%Q
  /\ end_time_sec (cue_of app_config 5 2)
     = (start_time_sec (cue_of app_config 5 2) + 5)%Q.
Proof.
  split; [discriminate|]. split; [discriminate|].
  exact (proj1 (cues_are_contiguous app_config 5 2
                  ltac:(discriminate) ltac:(discriminate))).
Defined.

(** X12.  With an interval that is not negative, cue start times never
    decrease from one entry to a later one, cue end times never decrease
    either, and no end time exceeds 86399.999. *)
Theorem cue_times_ordered (cfg : config) (k : Q) (i j : nat) :
  (0 <= k)%Q -> (i <= j)%nat ->
  (start_time_sec (cue_of cfg k i) <= start_time_sec (cue_of cfg k j))%Q
  /\ (end_time_sec (cue_of cfg k i) <= end_time_sec (cue_of cfg k j))%Q
  /\ (end_time_sec (cue_of cfg k j) <= 86399999 # 1000)%Q.
Proof.
  intros Hk Hij. destruct (cue_times_monotone cfg k i j Hk Hij) as [Hs He].
  split; [exact Hs|]. split; [exact He | apply cue_end_capped].
Qed.

Lemma cue_times_ordered_witness :
  (0 <= 5)%Q /\ (2 <= 100)%nat
  /\ (end_time_sec (cue_of app_config 5 100) <= 86399999 # 1000)%Q.
Proof.
  split; [discriminate|]. split; [lia|].
  exact (proj2 (proj2 (cue_times_ordered app_config 5 2 100
                         ltac:(discriminate) ltac:(lia)))).
Defined.

(** X13.  Cues stay aligned with the frames they describe.  For a video
    of at least 0.1 s and an interval of at least 0.1 s, the start time
    of cue entry [i], computed with the interval [generate] chooses, is
    never before the position at which frame [i] was requested and less
    than 0.1 s after it, for every requested index [i]. *)
Theorem cues_align_with_frames (cfg : config) (d : Q) (i : nat) :
  (1 # 10 <= THUMBNAIL_INTERVAL cfg)%Q -> (1 # 10 <= d)%Q ->
  (i < Z.to_nat (num_thumbnails cfg d))%nat ->
  let start := start_time_sec (cue_of cfg (thumbnail_interval_for_vtt cfg d) i) in
  (actual_timestamp cfg d i <= start)%Q
  /\ (start < actual_timestamp cfg d i + (1 # 10))%Q.
Proof.
  intros Hk Hd Hi start.
  assert (Hk0 : (0 < THUMBNAIL_INTERVAL cfg)%Q) by lra.
  pose proof (index_below_count cfg d i Hk0 Hi) as Hlast.
  assert (Hstart : (start == inject_Z (Z.of_nat i) * THUMBNAIL_INTERVAL cfg)%Q).
  { unfold start. rewrite cue_start_spec.
    destruct (Qlt_le_dec d (THUMBNAIL_INTERVAL cfg)) as [Hshort|Hlong].
    - assert (Hone : num_thumbnails cfg d = 1).
      { unfold num_thumbnails, Py.ceil. apply Qceiling_unique.
        - change (inject_Z (1 - 1)) with 0%Q. apply Qdiv_pos; lra.
        - apply Qle_shift_div_r; [exact Hk0|]. change (inject_Z 1) with 1%Q. lra. }
      rewrite Hone in Hi. assert (i = 0)%nat as -> by lia.
      change (inject_Z (Z.of_nat 0)) with 0%Q. ring.
    - now rewrite interval_for_long_video. }
  unfold actual_timestamp, seek_epsilon.
  destruct (Py_min_spec (inject_Z (Z.of_nat i) * THUMBNAIL_INTERVAL cfg)
              (d - (1 # 10))) as [[Hlt ->]|[Hle ->]]; rewrite Hstart; split; lra.
Qed.

Lemma cues_align_with_frames_witness :
  (1 # 10 <= THUMBNAIL_INTERVAL app_config)%Q /\ (1 # 10 <= 3)%Q
  /\ (0 < Z.to_nat (num_thumbnails app_config 3))%nat
  /\ (actual_timestamp app_config 3 0
      <= start_time_sec (cue_of app_config (thumbnail_interval_for_vtt app_config 3) 0))%Q.
Proof.
  split; [discriminate|]. split; [discriminate|]. split; [vm_compute; lia|].
  exact (proj1 (cues_align_with_frames app_config 3 0 ltac:(discriminate)
                  ltac:(discriminate) ltac:(vm_compute; lia))).
Defined.

(** X14.  Every cue rectangle lies inside the sprite, and no two entries
    share a tile: with positive thumbnail dimensions and [c > 0] columns,
    entry [i < n] has [0 <= x], [x + THUMB_WIDTH <= c * THUMB_WIDTH],
    [0 <= y] and [y + THUMB_HEIGHT <= rows * THUMB_HEIGHT] for the
    [rows] the composer asks for, and two entries with the same [(x, y)]
    are the same entry. *)
Theorem cue_rectangles (cfg : config) (k : Q) (n i j : nat) :
  0 < THUMBS_PER_ROW cfg -> 0 < THUMB_WIDTH cfg -> 0 < THUMB_HEIGHT cfg ->
  (i < n)%nat ->
  let q := cue_of cfg k i in
  0 <= cue_x q
  /\ cue_x q + THUMB_WIDTH cfg <= THUMBS_PER_ROW cfg * THUMB_WIDTH cfg
  /\ 0 <= cue_y q
  /\ cue_y q + THUMB_HEIGHT cfg <= num_rows cfg n * THUMB_HEIGHT cfg
  /\ (cue_x (cue_of cfg k j) = cue_x q -> cue_y (cue_of cfg k j) = cue_y q ->
      j = i).
Proof.
  intros Hc Hw Hh Hi q. subst q. cbn [cue_of cue_x cue_y].
  pose proof (Z.mod_pos_bound (Z.of_nat i) (THUMBS_PER_ROW cfg) Hc) as Hcol.
  pose proof (row_below_ceiling (THUMBS_PER_ROW cfg) n i Hc Hi) as Hrow.
  assert (Hrow0 : 0 <= Z.of_nat i / THUMBS_PER_ROW cfg)
    by (apply Z.div_pos; lia).
  assert (Hrows : Z.of_nat i / THUMBS_PER_ROW cfg + 1 <= num_rows cfg n)
    by (rewrite num_rows_spec; lia).
  split; [nia|]. split; [nia|]. split; [nia|]. split; [nia|].
  intros Hx Hy.
  apply Z.mul_reg_r in Hx; [|lia]. apply Z.mul_reg_r in Hy; [|lia].
  pose proof (Z.div_mod (Z.of_nat i) (THUMBS_PER_ROW cfg) ltac:(lia)) as Di.
  pose proof (Z.div_mod (Z.of_nat j) (THUMBS_PER_ROW cfg) ltac:(lia)) as Dj.
  rewrite Hx, Hy in Dj. lia.
Qed.

Lemma cue_rectangles_witness :
  0 < THUMBS_PER_ROW app_config /\ 0 < THUMB_WIDTH app_config
  /\ 0 < THUMB_HEIGHT app_config /\ (11 < 12)%nat
  /\ cue_y (cue_of app_config 5 11) + THUMB_HEIGHT app_config
     <= num_rows app_config 12 * THUMB_HEIGHT app_config.
Proof.
  split; [reflexivity|]. split; [reflexivity|]. split; [reflexivity|].
  split; [lia|].
  exact (proj1 (proj2 (proj2 (proj2
           (cue_rectangles app_config 5 12 11 0 eq_refl eq_refl eq_refl
              ltac:(lia)))))).
Defined.

(** ** The composer's manifest *)

(** X15.  The manifest [input_thumbs.txt] is scoped to the call.  For a
    non-empty frame list and at least one column, [create_sprite_image]
    returns [True] exactly when the manifest could be written and the
    tiling run did not raise; whether it succeeds or fails, the manifest
    is gone afterwards (provided its removal does not fail), and when the
    manifest cannot be written the tiling tool is not invoked. *)
Theorem manifest_is_scoped (cfg : config) (e : env) (thumbnail_paths : list path)
    (output_path : path) (w : world) :
  thumbnail_paths <> [] -> THUMBS_PER_ROW cfg <> 0 ->
  let manifest := (dirname output_path ++ ["input_thumbs.txt"])%list in
  remove_fails e manifest = false ->
  exists w',
    create_sprite_image cfg e thumbnail_paths output_path w
    = Some (w', negb (write_fails e manifest) && negb (raised (tile_result e)))
    /\ files w' !! manifest = None
    /\ (write_fails e manifest = true -> calls w' = calls w).
Proof.
  intros Hne Hc manifest Hrm. unfold create_sprite_image.
  destruct thumbnail_paths as [|p ps]; [congruence|].
  apply Z.eqb_neq in Hc. rewrite Hc. fold manifest.
  destruct (write_fails e manifest); eexists; (split; [reflexivity|]); split.
  - now apply remove_if_exists_gone.
  - intros _. apply remove_if_exists_calls.
  - now apply remove_if_exists_gone.
  - discriminate.
Qed.

Lemma manifest_is_scoped_witness :
  [["job"; "thumb_0000.jpg"]] <> [] /\ THUMBS_PER_ROW app_config <> 0
  /\ remove_fails (all_ok 3) (dirname ["job"; "sprite.jpg"] ++ ["input_thumbs.txt"])%list
     = false
  /\ exists w',
       create_sprite_image app_config (all_ok 3) [["job"; "thumb_0000.jpg"]]
         ["job"; "sprite.jpg"] startup = Some (w', true)
       /\ files w' !! ["job"; "input_thumbs.txt"] = None.
Proof.
  split; [discriminate|]. split; [discriminate|]. split; [reflexivity|].
  destruct (manifest_is_scoped app_config (all_ok 3) [["job"; "thumb_0000.jpg"]]
              ["job"; "sprite.jpg"] startup ltac:(discriminate)
              ltac:(discriminate) eq_refl) as (w' & Hrun & Hgone & _).
  exists w'. split; [exact Hrun | exact Hgone].
Defined.

(** ** Frame file names *)

(** X16.  Frame files never clash: different indices give different
    paths in the output directory, and no frame path is the path of the
    sprite, of the cue file or of the manifest. *)
Theorem frame_files_never_clash (output_dir : path) (i j : nat) :
  (thumb_path output_dir i = thumb_path output_dir j -> i = j)
  /\ thumb_path output_dir i <> (output_dir ++ [SPRITE_FILENAME])%list
  /\ thumb_path output_dir i <> (output_dir ++ [VTT_FILENAME])%list
  /\ thumb_path output_dir i <> (output_dir ++ ["input_thumbs.txt"])%list.
Proof.
  split; [apply thumb_path_inj|].
  destruct (thumb_filename_head i) as [rest Hhead].
  unfold thumb_path. rewrite Hhead.
  repeat split; intros H; apply app_inv_head in H; discriminate H.
Qed.

(** ** Serving what a job produced *)

Lemma serve_plain_file (job_id filename : string) (w : world) (c : content) :
  job_id <> "." -> job_id <> ".." -> filename <> "." -> filename <> ".." ->
  files w !! [THUMBNAIL_FOLDER] = Some Dir ->
  files w !! [THUMBNAIL_FOLDER; job_id] = Some Dir ->
  files w !! [THUMBNAIL_FOLDER; job_id; filename] = Some (File c) ->
  serve_thumbnail_assets job_id filename w
  = SendFile [THUMBNAIL_FOLDER; job_id; filename] c.
Proof.
  intros Hj1 Hj2 Hf1 Hf2 Ht Hd Hfile.
  assert (Hstat : os_stat (files w) [THUMBNAIL_FOLDER; job_id; filename]
                  = Some ([THUMBNAIL_FOLDER; job_id; filename], File c)).
  { unfold os_stat. simpl.
    apply String.eqb_neq in Hj1, Hj2, Hf1, Hf2.
    rewrite Ht, Hj1, Hj2. simpl. rewrite Hd, Hf1, Hf2. simpl.
    now rewrite Hfile. }
  unfold serve_thumbnail_assets, stat_exists, stat_isfile, send_file.
  now rewrite Hstat.
Qed.

Lemma serve_plain_inv (job_id filename : string) (w : world) (target : path)
    (c : content) :
  job_id <> "." -> job_id <> ".." ->
  serve_thumbnail_assets job_id filename w = SendFile target c ->
  target = [THUMBNAIL_FOLDER; job_id; filename]
  /\ files w !! [THUMBNAIL_FOLDER] = Some Dir
  /\ files w !! [THUMBNAIL_FOLDER; job_id] = Some Dir
  /\ files w !! target = Some (File c).
Proof.
  intros Hdot Hdotdot. unfold serve_thumbnail_assets, stat_exists, stat_isfile, send_file.
  destruct (os_stat (files w) [THUMBNAIL_FOLDER; job_id; filename])
    as [[t [|c']]|] eqn:E; try discriminate.
  simpl. intros [= <- <-]. revert E. unfold os_stat. simpl.
  apply String.eqb_neq in Hdot, Hdotdot. rewrite Hdot, Hdotdot.
  destruct (files w !! [THUMBNAIL_FOLDER]) as [[|]|] eqn:Et; try discriminate.
  simpl.
  destruct (files w !! [THUMBNAIL_FOLDER; job_id]) as [[|]|] eqn:Ej;
    try discriminate.
  destruct (String.eqb_spec filename ".") as [->|_];
    [simpl; rewrite Ej; discriminate|].
  destruct (String.eqb_spec filename "..") as [->|_];
    [simpl; rewrite Et; discriminate|].
  simpl. destruct (files w !! [THUMBNAIL_FOLDER; job_id; filename]) eqn:F;
    [|discriminate].
  intros [= <- ->]. auto.
Qed.

(** X17.  What the asset route serves for a plain request.  When neither
    [job_id] nor [filename] is a dot segment, the route answers with a
    file exactly when [THUMBNAIL_FOLDER] and [THUMBNAIL_FOLDER/job_id] are
    directories and [THUMBNAIL_FOLDER/job_id/filename] is a regular file,
    and then it sends that very file; a missing file, a missing job and a
    directory all get the 404 answer. *)
Theorem plain_request_served_iff (job_id filename : string) (w : world)
    (target : path) (c : content) :
  job_id <> "." -> job_id <> ".." -> filename <> "." -> filename <> ".." ->
  (serve_thumbnail_assets job_id filename w = SendFile target c
   <-> target = [THUMBNAIL_FOLDER; job_id; filename]
       /\ files w !! [THUMBNAIL_FOLDER] = Some Dir
       /\ files w !! [THUMBNAIL_FOLDER; job_id] = Some Dir
       /\ files w !! target = Some (File c))
  /\ (serve_thumbnail_assets job_id filename w = NotFound 404
      \/ exists c', serve_thumbnail_assets job_id filename w
                    = SendFile [THUMBNAIL_FOLDER; job_id; filename] c').
Proof.
  intros Hj1 Hj2 Hf1 Hf2. split; [split|].
  - now apply serve_plain_inv.
  - intros (-> & Ht & Hd & Hfile). now apply serve_plain_file.
  - destruct (serve_thumbnail_assets job_id filename w) as [st|t c'] eqn:E.
    + left. revert E. unfold serve_thumbnail_assets, send_file.
      destruct (negb _ || negb _); [now intros [= <-]|].
      destruct (os_stat _ _) as [[? [|?]]|]; try discriminate;
        now intros [= <-].
    + right. exists c'. apply serve_plain_inv in E as (-> & _); auto.
Qed.

Lemma plain_request_served_iff_witness :
  "job" <> "." /\ "job" <> ".." /\ "nothing.jpg" <> "." /\ "nothing.jpg" <> ".."
  /\ serve_thumbnail_assets "job" "nothing.jpg" startup = NotFound 404.
Proof.
  split; [discriminate|]. split; [discriminate|]. split; [discriminate|].
  split; [discriminate|].
  destruct (proj2 (plain_request_served_iff "job" "nothing.jpg" startup [] (Binary 0)
                     ltac:(discriminate) ltac:(discriminate)
                     ltac:(discriminate) ltac:(discriminate)))
    as [H|[c' H]]; [exact H | discriminate H].
Defined.

Lemma generate_dirs (cfg : config) (e : env) (url : option string) (job : string)
    (w w' : world) (s v : string) :
  files w !! [THUMBNAIL_FOLDER] = Some Dir ->
  files w !! job_dir job = None ->
  generate cfg e url job w = (w', Success s v) ->
  files w' !! [THUMBNAIL_FOLDER] = Some Dir /\ files w' !! job_dir job = Some Dir.
Proof.
  intros Ht Hj. unfold generate. destruct url as [[|c u]|]; try discriminate.
  destruct (generate_try_frame cfg e (String c u) job
              (os_makedirs (job_dir job) w)) as [Hfr [kept Hps]].
  destruct (generate_try _ _ _ _ _) as [[w5 ps] resp]. simpl in *.
  intros [= <- _].
  assert (Hmk : files (os_makedirs (job_dir job) w) !! [THUMBNAIL_FOLDER] = Some Dir
                /\ files (os_makedirs (job_dir job) w) !! job_dir job = Some Dir).
  { assert (E1 : os_path_exists [THUMBNAIL_FOLDER] w = true)
      by (unfold os_path_exists; now rewrite Ht).
    assert (E2 : os_path_exists [THUMBNAIL_FOLDER; job] w = false)
      by (unfold os_path_exists; unfold job_dir in Hj; now rewrite Hj).
    unfold os_makedirs, job_dir. cbn [makedirs_from app]. rewrite E1, E2.
    cbn [files]. split; [|apply lookup_insert_eq].
    rewrite lookup_insert_ne by discriminate. exact Ht. }
  split.
  - rewrite generate_finally_other;
      [| discriminate | rewrite Hps; apply thumb_path_is_child; intro; discriminate].
    rewrite Hfr; [apply Hmk | discriminate | intro; discriminate].
  - rewrite generate_finally_other;
      [| discriminate | rewrite Hps; apply thumb_path_is_child; intro; discriminate].
    rewrite Hfr; [apply Hmk | discriminate | intro; discriminate].
Qed.

Lemma create_sprite_image_ok_file (cfg : config) (e : env) (ps : list path)
    (output_path : path) (w w' : world) (size : N) :
  create_sprite_image cfg e ps output_path w = Some (w', true) ->
  produced (tile_result e) = Some size ->
  output_path <> (dirname output_path ++ ["input_thumbs.txt"])%list ->
  files w' !! output_path = Some (File (Binary size)).
Proof.
  intros H Hprod Hne. unfold create_sprite_image in H.
  destruct ps as [|p ps]; [discriminate|].
  destruct (THUMBS_PER_ROW cfg =? 0); [discriminate|].
  destruct (write_fails e _); [discriminate|].
  injection H as <- _. rewrite remove_if_exists_other by exact Hne.
  rewrite Hprod. cbn [leave_output files write_file]. apply lookup_insert_eq.
Qed.

Lemma generate_success_urls (cfg : config) (e : env) (url : option string)
    (job : string) (w w' : world) (s v : string) :
  generate cfg e url job w = (w', Success s v) ->
  s = asset_url job SPRITE_FILENAME /\ v = asset_url job VTT_FILENAME.
Proof.
  unfold generate. destruct url as [[|c u]|]; try discriminate.
  pose proof (generate_try_response cfg e (String c u) job
                (os_makedirs (job_dir job) w)) as H.
  destruct (generate_try _ _ _ _ _) as [[w5 ps] resp]. simpl in H.
  intros [= _ ->]. destruct H as [H|[m H]]; [|discriminate].
  now injection H as -> ->.
Qed.

Lemma generate_success_sprite (cfg : config) (e : env) (url : option string)
    (job : string) (w w' : world) (s v : string) (size : N) :
  generate cfg e url job w = (w', Success s v) ->
  produced (tile_result e) = Some size ->
  files w' !! (job_dir job ++ [SPRITE_FILENAME])%list = Some (File (Binary size)).
Proof.
  unfold generate. destruct url as [[|c u]|]; try discriminate.
  destruct (generate_try _ _ _ _ _) as [[w5 ps] resp] eqn:E.
  intros [= <- ->] Hprod.
  apply generate_try_success in E
    as (n & d & w3 & w4 & _ & _ & _ & Hs & _ & Hc & Hv).
  apply sampler_inv in Hs as (_ & (kept & _ & Hps) & _).
  apply create_vtt_file_ok in Hv.
  rewrite generate_finally_other;
    [| discriminate | rewrite Hps; apply thumb_path_not_asset].
  rewrite Hv. cbn [files write_file]. rewrite lookup_insert_ne by discriminate.
  eapply create_sprite_image_ok_file; [exact Hc | exact Hprod | discriminate].
Qed.

(** X18.  What a successful job announces can be fetched.  After a job
    that answers with success (started with the thumbnail folder in place
    and no directory yet for its identifier, which is not a dot segment),
    the two URLs in the answer are [/thumbnails/<job>/sprite.jpg] and
    [/thumbnails/<job>/sprite.vtt]; the asset route serves the cue file
    the job wrote under that name, and the sprite whenever the tiling run
    left one. *)
Theorem served_after_success (cfg : config) (e : env) (url : option string)
    (job : string) (w w' : world) (s v : string) :
  files w !! [THUMBNAIL_FOLDER] = Some Dir ->
  files w !! job_dir job = None ->
  job <> "." -> job <> ".." ->
  generate cfg e url job w = (w', Success s v) ->
  s = asset_url job SPRITE_FILENAME
  /\ v = asset_url job VTT_FILENAME
  /\ (exists n d,
        (0 < n)%nat
        /\ serve_thumbnail_assets job VTT_FILENAME w'
           = SendFile (job_dir job ++ [VTT_FILENAME])
               (Text (vtt_text cfg n (thumbnail_interval_for_vtt cfg d) s)))
  /\ forall size,
       produced (tile_result e) = Some size ->
       serve_thumbnail_assets job SPRITE_FILENAME w'
       = SendFile (job_dir job ++ [SPRITE_FILENAME]) (Binary size).
Proof.
  intros Ht Hj Hd1 Hd2 Hgen.
  destruct (generate_success_urls _ _ _ _ _ _ _ _ Hgen) as [-> ->].
  destruct (generate_dirs _ _ _ _ _ _ _ _ Ht Hj Hgen) as [Ht' Hj'].
  split; [reflexivity|]. split; [reflexivity|]. split.
  - destruct (generate_success _ _ _ _ _ _ _ _ Hgen)
      as (u & d & n & inputs & _ & _ & _ & Hn & Hvtt & _).
    exists n, d. split; [exact Hn|].
    apply serve_plain_file; try assumption; discriminate.
  - intros size Hprod.
    apply serve_plain_file; try assumption; try discriminate.
    exact (generate_success_sprite _ _ _ _ _ _ _ _ _ Hgen Hprod).
Qed.

Lemma served_after_success_witness :
  files startup !! [THUMBNAIL_FOLDER] = Some Dir
  /\ files startup !! job_dir "job" = None
  /\ "job" <> "." /\ "job" <> ".."
  /\ serve_thumbnail_assets "job" SPRITE_FILENAME
       (generate app_config (all_ok 3) (Some "http://host/clip.mp4") "job" startup).1
     = SendFile (job_dir "job" ++ [SPRITE_FILENAME]) (Binary 9000).
Proof.
  split; [reflexivity|]. split; [reflexivity|].
  split; [discriminate|]. split; [discriminate|].
  refine (proj2 (proj2 (proj2
            (served_after_success app_config (all_ok 3)
               (Some "http://host/clip.mp4") "job" startup
               (generate app_config (all_ok 3) (Some "http://host/clip.mp4")
                  "job" startup).1
               "/thumbnails/job/sprite.jpg" "/thumbnails/job/sprite.vtt"
               eq_refl eq_refl ltac:(discriminate) ltac:(discriminate) _)))
            9000%N eq_refl).
  vm_compute. reflexivity.
Defined.

(** ** The cue file and the outcome *)

(** The cue file after the [try] block, by the response it ends in: only
    the cue writer touches it, and the cue writer is the last stage. *)
Lemma generate_try_vtt (cfg : config) (e : env) (url job : string)
    (w w5 : world) (ps : list path) (resp : response) :
  generate_try cfg e url job w = (w5, ps, resp) ->
  THUMBS_PER_ROW cfg <> 0 ->
  let vtt := (job_dir job ++ [VTT_FILENAME])%list in
  (exists s v, resp = Success s v /\ is_Some (files w5 !! vtt))
  \/ (resp = Error 500 "Failed to create VTT file."
      /\ files w5 !! vtt
         = match partial_write e vtt with
           | Some body => Some (File (Text body))
           | None => files w !! vtt
           end)
  \/ ((forall s v, resp <> Success s v)
      /\ resp <> Error 500 "Failed to create VTT file."
      /\ files w5 !! vtt = files w !! vtt).
Proof.
  intros H Hc vtt.
  assert (Hdl : files (download_video e url (job_video_path job) w).1 !! vtt
                = files w !! vtt)
    by (apply download_video_files_other; discriminate).
  unfold generate_try in H.
  destruct (download_video e url (job_video_path job) w) as [w1 [|]];
    [|injection H as <- _ <-; right; right; repeat split;
      [discriminate | discriminate | exact Hdl]].
  simpl in Hdl. unfold get_video_duration in H.
  destruct (probe_result e) as [d|];
    [|injection H as <- _ <-; right; right; repeat split;
      [discriminate | discriminate | exact Hdl]].
  destruct (Qle_bool d 0);
    [injection H as <- _ <-; right; right; repeat split;
     [discriminate | discriminate | exact Hdl]|].
  destruct (generate_individual_thumbnails _ _ _ _ _ _) as [[w3 ps3]|] eqn:Hs;
    [|injection H as <- _ <-; right; right; repeat split;
      [discriminate | discriminate | exact Hdl]].
  apply sampler_inv in Hs as (_ & _ & Hother).
  assert (H3 : files w3 !! vtt = files w !! vtt).
  { rewrite Hother; [exact Hdl|]. intros i Heq. unfold vtt, thumb_path in Heq.
    apply app_inv_head in Heq. destruct (thumb_filename_not_asset i). congruence. }
  destruct ps3 as [|p ps3];
    [injection H as <- _ <-; right; right; repeat split;
     [discriminate | discriminate | exact H3]|].
  destruct (create_sprite_image _ _ _ _ _) as [[w4 ok]|] eqn:Hsp;
    [|injection H as <- _ <-; right; right; repeat split;
      [discriminate | discriminate | exact H3]].
  assert (H4 : files w4 !! vtt = files w !! vtt).
  { rewrite (create_sprite_image_files_other _ _ _ _ _ _ _ _ Hsp);
      [exact H3 | discriminate | discriminate]. }
  destruct ok;
    [|injection H as <- _ <-; right; right; repeat split;
      [discriminate | discriminate | exact H4]].
  unfold create_vtt_file in H. fold vtt in H.
  apply Z.eqb_neq in Hc. rewrite Hc in H. simpl andb in H. cbv iota in H.
  destruct (write_fails e vtt).
  - injection H as <- _ <-. right. left. split; [reflexivity|].
    destruct (partial_write e vtt); simpl; [apply lookup_insert_eq | exact H4].
  - injection H as <- _ <-. left. do 2 eexists. split; [reflexivity|].
    simpl. rewrite lookup_insert_eq. eauto.
Qed.

(** X19.  When a job leaves a cue file.  With at least one column and no
    cue file in the workspace beforehand, a cue file exists after the job
    exactly when the job answered with success, or when it answered
    "Failed to create VTT file." and the failing write had already created
    the file: the cleanup removes the video and the frames, never the cue
    file.  Every other failure leaves no cue file. *)
Theorem cue_file_iff_success (cfg : config) (e : env) (url : option string)
    (job : string) (w w' : world) (resp : response) :
  THUMBS_PER_ROW cfg <> 0 ->
  files w !! (job_dir job ++ [VTT_FILENAME])%list = None ->
  generate cfg e url job w = (w', resp) ->
  (is_Some (files w' !! (job_dir job ++ [VTT_FILENAME])%list)
   <-> (exists s v, resp = Success s v)
       \/ (resp = Error 500 "Failed to create VTT file."
           /\ is_Some (partial_write e (job_dir job ++ [VTT_FILENAME])%list))).
Proof.
  intros Hc Hfresh. unfold generate.
  destruct url as [[|c u]|].
  1, 3: intros [= <- <-]; rewrite Hfresh; split;
    [intros [x Hx]; discriminate Hx
    | intros [(s & v & H)|[H _]]; discriminate H].
  destruct (generate_try _ _ _ _ _) as [[w5 ps] r] eqn:E.
  intros [= <- <-].
  destruct (generate_try_frame cfg e (String c u) job
              (os_makedirs (job_dir job) w)) as [_ [kept Hps]].
  rewrite E in Hps. simpl in Hps.
  rewrite generate_finally_other;
    [| discriminate | rewrite Hps; apply thumb_path_not_asset].
  assert (Hmk : files (os_makedirs (job_dir job) w)
                  !! (job_dir job ++ [VTT_FILENAME])%list = None).
  { unfold os_makedirs. rewrite makedirs_from_files_longer by (simpl; lia).
    exact Hfresh. }
  destruct (generate_try_vtt _ _ _ _ _ _ _ _ E Hc)
    as [(s & v & -> & Hsome)|[[-> Hf]|(Hns & Hnv & Hf)]].
  - split; [intros _; left; eauto | intros _; exact Hsome].
  - rewrite Hf, Hmk.
    destruct (partial_write e _) as [body|].
    + split; [intros _; right; split; [reflexivity | eauto] | intros _; eauto].
    + split; [intros [x Hx]; discriminate Hx|].
      intros [(s & v & H)|[_ [x Hx]]]; [discriminate H | discriminate Hx].
  - rewrite Hf, Hmk. split; [intros [x Hx]; discriminate Hx|].
    intros [(s & v & H)|[H _]]; [now apply Hns in H | contradiction].
Qed.

Lemma cue_file_iff_success_witness :
  THUMBS_PER_ROW app_config <> 0
  /\ files startup !! (job_dir "job" ++ [VTT_FILENAME])%list = None
  /\ is_Some (files (generate app_config disk_fills_up
                       (Some "http://host/clip.mp4") "job" startup).1
                !! (job_dir "job" ++ [VTT_FILENAME])%list).
Proof.
  split; [discriminate|]. split; [reflexivity|].
  apply (cue_file_iff_success app_config disk_fills_up
           (Some "http://host/clip.mp4") "job" startup _
           (generate app_config disk_fills_up (Some "http://host/clip.mp4")
              "job" startup).2
           ltac:(discriminate) eq_refl).
  - now destruct (generate _ _ _ _ _).
  - right. split; [vm_compute; reflexivity | eexists; reflexivity].
Defined.

(** ** The tiling order of a job *)

(** X20.  Up to ten thousand frames the sprite and the cue file agree.
    When a job that started without frame files in its directory succeeds
    on a video sampled at no more than 10000 positions, the frames handed
    to the tiling tool are exactly the frames whose extraction survived,
    in increasing index order, and the cue file has, after its header, one
    cue per such frame, the k-th with the rectangle of cell
    [(k % c, k // c)]: the k-th cue points at the tile of the k-th
    surviving frame. *)
Theorem job_tiles_in_frame_order (cfg : config) (e : env) (url : option string)
    (job : string) (w w' : world) (s v : string) (d : Q) :
  generate cfg e url job w = (w', Success s v) ->
  probe_result e = Some d ->
  num_thumbnails cfg d <= 10000 ->
  (forall i, files w !! thumb_path (job_dir job) i = None) ->
  let survivors :=
    List.filter (fun i => frame_survives (extract_result e i))
      (Py.range (num_thumbnails cfg d)) in
  let c := THUMBS_PER_ROW cfg in
  StronglySorted lt survivors
  /\ tile_inputs w' = map thumb_filename survivors
  /\ exists time_line : nat -> string,
       files w' !! (job_dir job ++ [VTT_FILENAME])%list
       = Some (File (Text
           ("WEBVTT" ++ LF ++ LF
            ++ String.concat ""
                 (map (fun k =>
                         time_line k ++ LF
                         ++ xywh_line (asset_url job SPRITE_FILENAME)
                              ((tile_cell c k).1 * THUMB_WIDTH cfg)
                              ((tile_cell c k).2 * THUMB_HEIGHT cfg)
                              (THUMB_WIDTH cfg) (THUMB_HEIGHT cfg)
                         ++ LF ++ LF)
                      (seq 0 (List.length survivors)))))).
Proof.
  intros Hgen Hprobe Hn Hfresh survivors c. revert Hgen.
  unfold generate. destruct url as [[|ch u]|]; try discriminate.
  destruct (generate_try _ _ _ _ _) as [[w5 ps] resp] eqn:E.
  intros [= <- ->].
  apply generate_try_success in E
    as (n & d' & w3 & w4 & _ & Hprobe' & _ & Hs & _ & Hc & Hv).
  assert (d' = d) as -> by congruence.
  assert (Hps : ps = map (thumb_path (job_dir job)) survivors).
  { revert Hs. unfold generate_individual_thumbnails.
    destruct (Qeq_bool (THUMBNAIL_INTERVAL cfg) 0); [discriminate|].
    intros [= Hw]. apply (f_equal snd) in Hw. cbn [snd] in Hw. rewrite <- Hw.
    rewrite sample_loop_paths; [reflexivity | apply NoDup_range |].
    intros i _. unfold probed_world, record_call, write_file. cbn [files].
    rewrite lookup_insert_ne by discriminate.
    unfold os_makedirs. rewrite makedirs_from_files_longer by (simpl; lia).
    apply Hfresh. }
  destruct (sublist_seq_sorted survivors 0 (Z.to_nat (num_thumbnails cfg d)))
    as [Hsorted Hb]; [apply filter_sublist|].
  apply create_sprite_image_ok in Hc. apply create_vtt_file_ok in Hv.
  split; [exact Hsorted|]. split.
  - unfold tile_inputs. rewrite generate_finally_calls, Hv.
    cbn [calls write_file]. rewrite Hc, last_snoc.
    change (dirname (dirname (job_dir job ++ [SPRITE_FILENAME])
                     ++ ["input_thumbs.txt"]))%list with (job_dir job).
    rewrite Hps. apply manifest_of_sorted, sorted_frames_in_order; [exact Hsorted|].
    eapply Forall_impl; [exact Hb|]. intros i Hi. simpl in Hi. lia.
  - exists (fun i =>
              timestamp_str
                (start_time_sec (cue_of cfg (thumbnail_interval_for_vtt cfg d) i))
              ++ " --> "
              ++ timestamp_str
                   (end_time_sec (cue_of cfg (thumbnail_interval_for_vtt cfg d) i))).
    rewrite generate_finally_other;
      [| discriminate | rewrite Hps; apply thumb_path_not_asset].
    rewrite Hv, Hps, length_map. cbn [files write_file].
    rewrite lookup_insert_eq, vtt_text_cues. reflexivity.
Qed.

Lemma job_tiles_in_frame_order_witness :
  tile_inputs (generate app_config last_frame_empty
                 (Some "http://host/film.mp4") "job" startup).1
  = ["thumb_0000.jpg"; "thumb_0001.jpg"; "thumb_0002.jpg"; "thumb_0003.jpg"].
Proof.
  refine (eq_trans
            (proj1 (proj2
               (job_tiles_in_frame_order app_config last_frame_empty
                  (Some "http://host/film.mp4") "job" startup _
                  "/thumbnails/job/sprite.jpg" "/thumbnails/job/sprite.vtt" 23
                  _ eq_refl _ _))) _).
  - vm_compute. reflexivity.
  - vm_compute. discriminate.
  - intros i. unfold thumb_path, job_dir. cbn [app].
    unfold startup, startup_files. cbn [files].
    now rewrite !lookup_insert_ne, lookup_empty by discriminate.
  - vm_compute. reflexivity.
Defined.

(** ** What a job leaves behind *)







(** * The sampler on IEEE doubles

    Rounding to the nearest double, the float operations of the sampler
    on values that are not negative, and the requests the sampler makes. *)

Section Doubles.

Local Open Scope Q_scope.

Lemma inject_Z_pos (m : Z) : (0 < m)%Z -> 0 < inject_Z m.
Proof. intros H. change 0 with (inject_Z 0). now rewrite <- Zlt_Qlt. Qed.

Lemma inject_Z_nonneg (m : Z) : (0 <= m)%Z -> 0 <= inject_Z m.
Proof. intros H. change 0 with (inject_Z 0). now rewrite <- Zle_Qle. Qed.

Lemma pow2_pos (e : Z) : 0 < Binary64.pow2 e.
Proof. apply Qpower_0_lt. reflexivity. Qed.

Lemma pow2_add (a b : Z) : Binary64.pow2 (a + b) == Binary64.pow2 a * Binary64.pow2 b.
Proof. apply Qpower_plus. discriminate. Qed.

Lemma pow2_le (a b : Z) : (a <= b)%Z -> Binary64.pow2 a <= Binary64.pow2 b.
Proof. intros H. apply Qpower_le_compat_l; [exact H | discriminate]. Qed.

Lemma pow2_lt_inv (a b : Z) : Binary64.pow2 a < Binary64.pow2 b -> (a < b)%Z.
Proof. intros H. eapply Qpower_lt_compat_l_inv; [exact H | reflexivity]. Qed.

Lemma pow2_Z (k : Z) : (0 <= k)%Z -> Binary64.pow2 k == inject_Z (2 ^ k)%Z.
Proof. intros H. unfold Binary64.pow2. now rewrite Zpower_Qpower. Qed.


Lemma mul_pow2_div (x : Q) (e : Z) : x * Binary64.pow2 e / Binary64.pow2 e == x.
Proof. field. pose proof (pow2_pos e) as H. intros E. rewrite E in H. discriminate H. Qed.

Lemma div_pow2_le (x y : Q) (e : Z) : x <= y -> x / Binary64.pow2 e <= y / Binary64.pow2 e.
Proof.
  intros H. unfold Qdiv. apply Qmult_le_compat_r; [exact H|].
  apply Qlt_le_weak, Qinv_lt_0_compat, pow2_pos.
Qed.

#[local] Instance rne_proper : Proper (Qeq ==> eq) Binary64.rne.
Proof.
  intros x y E. unfold Binary64.rne. rewrite (Qfloor_comp _ _ E).
  assert (C : (x - inject_Z (Qfloor y) ?= 1 # 2) = (y - inject_Z (Qfloor y) ?= 1 # 2))
    by now rewrite E.
  now rewrite C.
Qed.

Lemma rne_Z (n : Z) : Binary64.rne (inject_Z n) = n.
Proof.
  unfold Binary64.rne. rewrite Qfloor_Z.
  assert (C : (inject_Z n - inject_Z n ?= 1 # 2) = Lt).
  { apply (proj1 (Qlt_alt _ _)). ring_simplify. reflexivity. }
  now rewrite C.
Qed.

Lemma rne_bounds (x : Q) : (Qfloor x <= Binary64.rne x <= Qfloor x + 1)%Z.
Proof.
  unfold Binary64.rne. destruct (_ ?= _); [destruct (Z.even _)| |]; lia.
Qed.

Lemma rne_mono (x y : Q) : x <= y -> (Binary64.rne x <= Binary64.rne y)%Z.
Proof.
  intros H. pose proof (Qfloor_resp_le _ _ H) as Hf.
  pose proof (rne_bounds x) as Bx. pose proof (rne_bounds y) as By.
  destruct (Z.eq_dec (Qfloor x) (Qfloor y)) as [E|N]; [|lia].
  unfold Binary64.rne in *. rewrite E in *.
  destruct (x - inject_Z (Qfloor y) ?= 1 # 2) eqn:Cx;
    [apply Qeq_alt in Cx | apply Qlt_alt in Cx | apply Qgt_alt in Cx];
    (destruct (y - inject_Z (Qfloor y) ?= 1 # 2) eqn:Cy;
     [apply Qeq_alt in Cy | apply Qlt_alt in Cy | apply Qgt_alt in Cy]);
    try (destruct (Z.even (Qfloor y))); try lia; exfalso; lra.
Qed.

Lemma round_at_mono (e : Z) (x y : Q) : x <= y -> Binary64.round_at e x <= Binary64.round_at e y.
Proof.
  intros H. unfold Binary64.round_at. apply Qmult_le_compat_r; [|apply Qlt_le_weak, pow2_pos].
  rewrite <- Zle_Qle. apply rne_mono, div_pow2_le, H.
Qed.

Lemma round_at_multiple (e m : Z) :
  Binary64.round_at e (inject_Z m * Binary64.pow2 e) == inject_Z m * Binary64.pow2 e.
Proof. unfold Binary64.round_at. now rewrite mul_pow2_div, rne_Z. Qed.

#[local] Instance round_at_proper (e : Z) : Proper (Qeq ==> Qeq) (Binary64.round_at e).
Proof. intros x y E. unfold Binary64.round_at. now rewrite E. Qed.


Lemma log2_bounds (n : Z) :
  (0 < n)%Z -> Binary64.pow2 (Z.log2 n) <= inject_Z n /\ inject_Z n < Binary64.pow2 (Z.log2 n + 1).
Proof.
  intros H. destruct (Z.log2_spec n H) as [L U].
  pose proof (Z.log2_nonneg n) as P.
  rewrite !pow2_Z by lia. rewrite <- Zle_Qle, <- Zlt_Qlt.
  split; [exact L|]. now rewrite <- Z.add_1_r in U.
Qed.

Lemma ilog2_spec (x : Q) :
  0 < x -> Binary64.pow2 (Binary64.ilog2 x) <= x /\ x < Binary64.pow2 (Binary64.ilog2 x + 1).
Proof.
  intros Hx. destruct x as [n d].
  assert (Hn : (0 < n)%Z) by (unfold Qlt in Hx; simpl in Hx; lia).
  destruct (log2_bounds n Hn) as [Ln Un].
  destruct (log2_bounds (Zpos d) eq_refl) as [Ld Ud].
  assert (E : n # d == inject_Z n / inject_Z (Zpos d)) by apply Qmake_Qdiv.
  assert (Dpos : 0 < inject_Z (Zpos d)) by reflexivity.
  unfold Binary64.ilog2. cbn [Qnum Qden].
  set (a := Z.log2 n) in *. set (b := Z.log2 (Zpos d)) in *.
  destruct (Qle_bool (Binary64.pow2 (a - b)) (n # d)) eqn:C.
  - apply Qle_bool_iff in C. split; [exact C|].
    rewrite E. apply Qlt_shift_div_r; [exact Dpos|].
    assert (P : Binary64.pow2 (a + 1) == Binary64.pow2 (a - b + 1) * Binary64.pow2 b)
      by (rewrite <- pow2_add; now replace (a - b + 1 + b)%Z with (a + 1)%Z by ring).
    pose proof (pow2_pos (a - b + 1)).
    rewrite P in Un. nra.
  - assert (C' : n # d < Binary64.pow2 (a - b)).
    { apply Qnot_le_lt. intros H. apply Qle_bool_iff in H. congruence. }
    split.
    + rewrite E. apply Qle_shift_div_l; [exact Dpos|].
      assert (P : Binary64.pow2 a == Binary64.pow2 (a - b - 1) * Binary64.pow2 (b + 1))
        by (rewrite <- pow2_add; now replace (a - b - 1 + (b + 1))%Z with a by ring).
      pose proof (pow2_pos (a - b - 1)).
      rewrite P in Ln. nra.
    + now replace (a - b - 1 + 1)%Z with (a - b)%Z by ring.
Qed.

Lemma ilog2_unique (x : Q) (a : Z) :
  Binary64.pow2 a <= x -> x < Binary64.pow2 (a + 1) -> Binary64.ilog2 x = a.
Proof.
  intros L U.
  assert (Hx : 0 < x) by (eapply Qlt_le_trans; [apply pow2_pos | exact L]).
  destruct (ilog2_spec x Hx) as [L' U'].
  assert (H1 : (a < Binary64.ilog2 x + 1)%Z)
    by (apply pow2_lt_inv; eapply Qle_lt_trans; eassumption).
  assert (H2 : (Binary64.ilog2 x < a + 1)%Z)
    by (apply pow2_lt_inv; eapply Qle_lt_trans; eassumption).
  lia.
Qed.

Lemma ilog2_mono (x y : Q) : 0 < x -> x <= y -> (Binary64.ilog2 x <= Binary64.ilog2 y)%Z.
Proof.
  intros Hx H.
  destruct (ilog2_spec x Hx) as [L _].
  destruct (ilog2_spec y (Qlt_le_trans _ _ _ Hx H)) as [_ U].
  assert (H1 : (Binary64.ilog2 x < Binary64.ilog2 y + 1)%Z).
  { apply pow2_lt_inv. eapply Qle_lt_trans; [exact L|].
    eapply Qle_lt_trans; [exact H | exact U]. }
  lia.
Qed.

(** A power of two above the last place is a multiple of it. *)
Lemma pow2_multiple (l e : Z) :
  (e <= l)%Z -> Binary64.pow2 l == inject_Z (2 ^ (l - e))%Z * Binary64.pow2 e.
Proof.
  intros H. rewrite <- pow2_Z by lia. rewrite <- pow2_add.
  now replace (l - e + e)%Z with l by ring.
Qed.

Lemma fl_pos (x : Q) : 0 < x -> Binary64.fl x == Binary64.round_at (Binary64.fexp x) x.
Proof.
  intros H. unfold Binary64.fl. destruct (Qcompare_spec x 0); [lra | lra | apply Qred_correct].
Qed.

Lemma fl_neg (x : Q) : x < 0 -> Binary64.fl x == - Binary64.fl (- x).
Proof.
  intros H. assert (H' : 0 < - x) by lra.
  rewrite (fl_pos _ H'). unfold Binary64.fl.
  destruct (Qcompare_spec x 0); [lra | apply Qred_correct | lra].
Qed.

Lemma fl_zero (x : Q) : x == 0 -> Binary64.fl x == 0.
Proof.
  intros H. unfold Binary64.fl. destruct (Qcompare_spec x 0); [reflexivity | lra | lra].
Qed.

Lemma round_at_nonneg (e : Z) (x : Q) : 0 <= x -> 0 <= Binary64.round_at e x.
Proof.
  intros H. pose proof (round_at_mono e 0 x H) as M.
  assert (Z0 : Binary64.round_at e 0 == 0).
  { pose proof (round_at_multiple e 0) as R.
    assert (E : inject_Z 0 * Binary64.pow2 e == 0) by ring. rewrite E in R. exact R. }
  now rewrite Z0 in M.
Qed.

Lemma fl_nonneg (x : Q) : 0 <= x -> 0 <= Binary64.fl x.
Proof.
  intros H. destruct (Qlt_le_dec 0 x) as [P|N].
  - rewrite (fl_pos _ P). now apply round_at_nonneg.
  - rewrite fl_zero by lra. lra.
Qed.

Lemma fl_mono_pos (x y : Q) : 0 < x -> x <= y -> Binary64.fl x <= Binary64.fl y.
Proof.
  intros Hx H. assert (Hy : 0 < y) by lra.
  rewrite (fl_pos _ Hx), (fl_pos _ Hy).
  pose proof (ilog2_mono x y Hx H) as Hl.
  destruct (ilog2_spec x Hx) as [Lx Ux]. destruct (ilog2_spec y Hy) as [Ly Uy].
  unfold Binary64.fexp.
  destruct (Z.eq_dec (Z.max (Binary64.ilog2 x - 52) (-1074)) (Z.max (Binary64.ilog2 y - 52) (-1074)))
    as [E|N]; [rewrite E; now apply round_at_mono|].
  assert (Hlt : (Binary64.ilog2 x < Binary64.ilog2 y)%Z) by lia.
  assert (Hey : Z.max (Binary64.ilog2 y - 52) (-1074) = (Binary64.ilog2 y - 52)%Z) by lia.
  apply Qle_trans with (Binary64.pow2 (Binary64.ilog2 y)).
  - rewrite (pow2_multiple (Binary64.ilog2 y) (Z.max (Binary64.ilog2 x - 52) (-1074))) by lia.
    rewrite <- round_at_multiple. apply round_at_mono.
    rewrite <- pow2_multiple by lia.
    apply Qle_trans with (Binary64.pow2 (Binary64.ilog2 x + 1)); [lra | apply pow2_le; lia].
  - rewrite Hey. rewrite (pow2_multiple (Binary64.ilog2 y) (Binary64.ilog2 y - 52)) at 1 by lia.
    rewrite <- round_at_multiple. apply round_at_mono.
    now rewrite <- pow2_multiple by lia.
Qed.

(** On the values of the examples, [fl] after an exact operation is what
    the machine computes: the literal [0.1], the duration 25.05, their
    difference, a quotient by 5, the thousandths of 59.936, and the
    remainder of a small negative position moved by 3600. *)
Lemma rounding_on_the_machine :
  let tenth := PrimFloat.div (machine 1) (machine 10) in
  let d := PrimFloat.div (machine 2505) (machine 100) in
  let t := PrimFloat.div (machine 59936) (machine 1000) in
  double_value tenth = Some (Binary64.fl (1 # 10))
  /\ double_value d = Some (Binary64.fl (2505 # 100))
  /\ double_value (PrimFloat.sub d tenth)
     = Some (Binary64.fl (Binary64.fl (2505 # 100) - Binary64.fl (1 # 10)))
  /\ double_value (PrimFloat.div d (machine 5))
     = Some (Binary64.fl (Binary64.fl (2505 # 100) / 5))
  /\ double_value (PrimFloat.mul (PrimFloat.sub t (machine 59)) (machine 1000))
     = Some (Binary64.fl (Binary64.fl (Binary64.fl (59936 # 1000) - 59) * 1000))
  /\ double_value
       (PrimFloat.add (PrimFloat.sub (PrimFloat.div (machine 1) (machine 20)) tenth)
          (machine 3600))
     = Some (Binary64.fl
               (Binary64.fl (Binary64.fl (1 # 20) - Binary64.fl (1 # 10)) + 3600)).
Proof. vm_compute. repeat split. Qed.

(** Rounding to the nearest double is monotone. *)
Lemma fl_mono (x y : Q) : x <= y -> Binary64.fl x <= Binary64.fl y.
Proof.
  intros H. destruct (Qlt_le_dec 0 x) as [Px|Nx].
  - now apply fl_mono_pos.
  - destruct (Qlt_le_dec x 0) as [Lx|Zx].
    + destruct (Qlt_le_dec y 0) as [Ly|Py].
      * rewrite (fl_neg _ Lx), (fl_neg _ Ly).
        assert (M : Binary64.fl (- y) <= Binary64.fl (- x)) by (apply fl_mono_pos; lra). lra.
      * rewrite (fl_neg _ Lx).
        assert (M : 0 <= Binary64.fl (- x)) by (apply fl_nonneg; lra).
        pose proof (fl_nonneg y Py). lra.
    + rewrite (fl_zero x) by lra. apply fl_nonneg. lra.
Qed.

#[local] Instance fl_proper : Proper (Qeq ==> Qeq) Binary64.fl.
Proof.
  intros x y E. apply Qle_antisym; apply fl_mono; rewrite E; apply Qle_refl.
Qed.

(** Multiples of a power of two with at most 53 bits are doubles. *)
Lemma fl_dyadic (m e : Z) :
  (0 <= m <= 2 ^ 53)%Z -> (-1074 <= e)%Z ->
  Binary64.fl (inject_Z m * Binary64.pow2 e) == inject_Z m * Binary64.pow2 e.
Proof.
  intros Hm He. destruct (Z.eq_dec m 0%Z) as [->|Hm0].
  { rewrite fl_zero by ring. ring. }
  assert (Hpos : 0 < inject_Z m * Binary64.pow2 e).
  { apply Qmult_lt_0_compat; [|apply pow2_pos]. apply inject_Z_pos. lia. }
  rewrite (fl_pos _ Hpos).
  destruct (log2_bounds m ltac:(lia)) as [L U].
  pose proof (pow2_pos e) as Pe.
  assert (Hl : Binary64.ilog2 (inject_Z m * Binary64.pow2 e) = (Z.log2 m + e)%Z).
  { apply ilog2_unique.
    - rewrite pow2_add. apply Qmult_le_compat_r; [exact L | lra].
    - replace (Z.log2 m + e + 1)%Z with (Z.log2 m + 1 + e)%Z by ring.
      rewrite pow2_add. apply Qmult_lt_compat_r; [exact Pe | exact U]. }
  unfold Binary64.fexp. rewrite Hl.
  assert (Hlog : (Z.log2 m <= 53)%Z).
  { pose proof (Z.log2_le_mono m (2 ^ 53)%Z ltac:(lia)) as Hle.
    now rewrite Z.log2_pow2 in Hle by lia. }
  destruct (Z.eq_dec m (2 ^ 53)%Z) as [->|Hne].
  - assert (E : inject_Z (2 ^ 53)%Z * Binary64.pow2 e == inject_Z (2 ^ 52)%Z * Binary64.pow2 (e + 1)).
    { rewrite (Z.add_comm e 1), pow2_add. change (Binary64.pow2 1) with 2. change (inject_Z 2) with 2.
      change (inject_Z (2 ^ 53)%Z) with (inject_Z (2 ^ 52 * 2)%Z). rewrite inject_Z_mult. ring. }
    change (Z.log2 (2 ^ 53)%Z) with 53%Z.
    replace (Z.max (53 + e - 52) (-1074)) with (e + 1)%Z by lia.
    rewrite E. apply round_at_multiple.
  - assert (Hlog' : (Z.log2 m <= 52)%Z).
    { assert (Z.log2 m < 53)%Z; [|lia].
      apply (proj1 (Z.log2_lt_pow2 m 53 ltac:(lia))). lia. }
    set (e' := Z.max (Z.log2 m + e - 52) (-1074)).
    assert (He' : (e' <= e)%Z) by (unfold e'; lia).
    assert (E : inject_Z m * Binary64.pow2 e == inject_Z (m * 2 ^ (e - e'))%Z * Binary64.pow2 e').
    { rewrite inject_Z_mult, <- pow2_Z by lia. rewrite <- Qmult_assoc, <- pow2_add.
      now replace (e - e' + e')%Z with e by ring. }
    rewrite E. apply round_at_multiple.
Qed.

(** Integers of at most 53 bits are doubles. *)
Lemma fl_Z (n : Z) : (0 <= n <= 2 ^ 53)%Z -> Binary64.fl (inject_Z n) == inject_Z n.
Proof.
  intros H. pose proof (fl_dyadic n 0%Z H ltac:(lia)) as E.
  change (Binary64.pow2 0) with 1 in E. now rewrite Qmult_1_r in E.
Qed.

(** Every double is such a multiple. *)
Lemma fl_repr (x : Q) :
  0 <= x ->
  exists m e, (0 <= m <= 2 ^ 53)%Z /\ (-1074 <= e)%Z /\ Binary64.fl x == inject_Z m * Binary64.pow2 e.
Proof.
  intros H. destruct (Qlt_le_dec 0 x) as [P|N].
  - exists (Binary64.rne (x / Binary64.pow2 (Binary64.fexp x))), (Binary64.fexp x).
    destruct (ilog2_spec x P) as [L U].
    split; [split|split].
    + rewrite <- (rne_Z 0%Z). apply rne_mono.
      apply Qle_shift_div_l; [apply pow2_pos|].
      change (inject_Z 0) with 0. rewrite Qmult_0_l. lra.
    + rewrite <- (rne_Z (2 ^ 53)%Z). apply rne_mono.
      apply Qle_shift_div_r; [apply pow2_pos|].
      rewrite <- pow2_Z, <- pow2_add by lia.
      apply Qle_trans with (Binary64.pow2 (Binary64.ilog2 x + 1)); [lra|].
      apply pow2_le. unfold Binary64.fexp. lia.
    + unfold Binary64.fexp. lia.
    + now rewrite (fl_pos _ P).
  - exists 0%Z, 0%Z. split; [lia|]. split; [lia|].
    rewrite fl_zero by lra. ring.
Qed.






Local Open Scope Q_scope.

(** On a dividend that is not negative, [%] by a positive integer is the
    exact remainder. *)
Lemma mod_nonneg (x : Q) (k : Z) :
  0 <= x -> (0 < k)%Z -> Binary64.mod_ x (inject_Z k) = Py.mod_ x (inject_Z k).
Proof.
  intros Hx Hk.
  assert (Kpos : 0 < inject_Z k) by now apply inject_Z_pos.
  assert (Hq : 0 <= x / inject_Z k).
  { apply Qle_shift_div_l; [exact Kpos|]. now rewrite Qmult_0_l. }
  assert (E : Binary64.fmod x (inject_Z k) = Py.mod_ x (inject_Z k)).
  { unfold Binary64.fmod, Py.mod_. now rewrite Py_int_nonneg. }
  unfold Binary64.mod_. rewrite E.
  pose proof (Py_mod_nonneg x k Hk) as Hm.
  unfold Binary64.differ_in_sign.
  assert (B1 : Qle_bool 0 (inject_Z k) = true) by (apply Qle_bool_iff; lra).
  assert (B2 : Qle_bool 0 (Py.mod_ x (inject_Z k)) = true) by now apply Qle_bool_iff.
  rewrite B1, B2. cbn [negb xorb]. now rewrite andb_false_r.
Qed.

Lemma Qeq_bool_false (a b : Q) : ~ a == b -> Qeq_bool a b = false.
Proof.
  intros H. destruct (Qeq_bool a b) eqn:E; [|reflexivity].
  now apply Qeq_bool_iff in E.
Qed.

(** On a dividend below [2^53] that is not negative, [//] by a positive
    integer is the floor of the quotient. *)
Lemma floordiv_nonneg (x : Q) (k : Z) :
  0 <= x -> x < inject_Z (2 ^ 53) -> (0 < k)%Z ->
  Binary64.floordiv x (inject_Z k) == inject_Z (Qfloor (x / inject_Z k)).
Proof.
  intros Hx Hlt Hk.
  assert (Kpos : 0 < inject_Z k) by now apply inject_Z_pos.
  assert (Hq : 0 <= x / inject_Z k).
  { apply Qle_shift_div_l; [exact Kpos|]. now rewrite Qmult_0_l. }
  set (q := Qfloor (x / inject_Z k)).
  assert (Hq0 : (0 <= q)%Z).
  { unfold q. change 0%Z with (Qfloor 0). now apply Qfloor_resp_le. }
  assert (E : Binary64.fmod x (inject_Z k) = x - inject_Z k * inject_Z q).
  { unfold Binary64.fmod. now rewrite Py_int_nonneg. }
  pose proof (Py_mod_nonneg x k Hk) as Hm. unfold Py.mod_ in Hm. fold q in Hm.
  assert (Hkq : inject_Z (k * q) <= x) by (rewrite inject_Z_mult; lra).
  assert (Hkq53 : (0 <= k * q <= 2 ^ 53)%Z).
  { split; [nia|]. apply Zlt_le_weak. rewrite Zlt_Qlt. lra. }
  assert (Hq53 : (0 <= q <= 2 ^ 53)%Z) by nia.
  assert (D1 : Binary64.fl (x - (x - inject_Z k * inject_Z q)) == inject_Z (k * q)).
  { assert (S : x - (x - inject_Z k * inject_Z q) == inject_Z (k * q))
      by (rewrite inject_Z_mult; ring).
    rewrite S. now apply fl_Z. }
  assert (D2 : Binary64.fl (Binary64.fl (x - (x - inject_Z k * inject_Z q)) / inject_Z k) == inject_Z q).
  { rewrite D1.
    assert (S : inject_Z (k * q) / inject_Z k == inject_Z q)
      by (rewrite inject_Z_mult; field; lra).
    rewrite S. now apply fl_Z. }
  unfold Binary64.floordiv. rewrite E.
  unfold Binary64.differ_in_sign.
  assert (B1 : Qle_bool 0 (inject_Z k) = true) by (apply Qle_bool_iff; lra).
  assert (B2 : Qle_bool 0 (x - inject_Z k * inject_Z q) = true) by now apply Qle_bool_iff.
  rewrite B1, B2. cbn [negb xorb]. rewrite andb_false_r.
  set (div := Binary64.fl (Binary64.fl (x - (x - inject_Z k * inject_Z q)) / inject_Z k)) in *.
  destruct (Qeq_bool div 0) eqn:Z0.
  - apply Qeq_bool_iff in Z0. now rewrite <- D2, Z0.
  - assert (F : Qfloor div = q) by (rewrite (Qfloor_comp _ _ D2); apply Qfloor_Z).
    rewrite F.
    assert (S : Binary64.fl (div - inject_Z q) == 0) by (apply fl_zero; rewrite D2; ring).
    assert (B3 : Qle_bool (Binary64.fl (div - inject_Z q)) (1 # 2) = true)
      by (apply Qle_bool_iff; rewrite S; discriminate).
    rewrite B3. reflexivity.
Qed.

(** The fractional part of a double that is not negative is a double
    again, and it stays [2^-53] below 1. *)
Lemma frac_of_double (t : Q) :
  0 <= t -> Binary64.fl t == t ->
  Binary64.fl (t - inject_Z (Qfloor t)) == t - inject_Z (Qfloor t)
  /\ t - inject_Z (Qfloor t) <= 1 - Binary64.pow2 (-53).
Proof.
  intros Ht Hd.
  destruct (fl_repr t Ht) as (m & e & Hm & He & E). rewrite Hd in E.
  assert (Small : 0 <= 1 - Binary64.pow2 (-53)) by (vm_compute; discriminate).
  destruct (Z_le_gt_dec 0 e) as [Pe|Ne].
  - assert (EZ : t == inject_Z (m * 2 ^ e)).
    { rewrite E, inject_Z_mult, <- pow2_Z by lia. reflexivity. }
    assert (F : Qfloor t = (m * 2 ^ e)%Z) by (rewrite (Qfloor_comp _ _ EZ); apply Qfloor_Z).
    assert (Z0 : t - inject_Z (Qfloor t) == 0) by (rewrite F, EZ; ring).
    split; [now rewrite fl_zero | now rewrite Z0].
  - set (K := (2 ^ (- e))%Z).
    assert (HK : (0 < K)%Z) by (unfold K; apply Z.pow_pos_nonneg; lia).
    assert (PK : Binary64.pow2 e * inject_Z K == 1).
    { unfold K. rewrite <- pow2_Z, <- pow2_add by lia.
      now replace (e + - e)%Z with 0%Z by ring. }
    assert (Kpos : 0 < inject_Z K) by now apply inject_Z_pos.
    assert (ED : t == inject_Z m / inject_Z K).
    { rewrite E. apply Qmult_inj_r with (z := inject_Z K); [lra|].
      rewrite <- Qmult_assoc, PK. field. lra. }
    assert (F : Qfloor t = (m / K)%Z).
    { rewrite (Qfloor_comp _ _ ED). symmetry. apply Zdiv_Qdiv. }
    pose proof (Z.div_mod m K ltac:(lia)) as DM.
    pose proof (Z.mod_pos_bound m K HK) as MB.
    assert (ML : (m mod K <= m)%Z) by (apply Z.mod_le; lia).
    assert (PI : Binary64.pow2 e == / inject_Z K).
    { apply Qmult_inj_r with (z := inject_Z K); [lra|]. rewrite PK. field. lra. }
    assert (IM : inject_Z m == inject_Z K * inject_Z (m / K) + inject_Z (m mod K)).
    { rewrite <- inject_Z_mult, <- inject_Z_plus. now rewrite <- DM. }
    assert (FR : t - inject_Z (Qfloor t) == inject_Z (m mod K) * Binary64.pow2 e).
    { rewrite F, E, PI, IM. field. lra. }
    split.
    + rewrite FR. apply fl_dyadic; lia.
    + rewrite FR. pose proof (pow2_pos e) as Pe.
      destruct (Z_le_gt_dec (-53) e) as [Big|Tiny].
      * apply Qle_trans with (1 - Binary64.pow2 e);
          [|pose proof (pow2_le (-53) e Big); lra].
        assert (B : inject_Z (m mod K) <= inject_Z K - 1).
        { assert (B0 : inject_Z (m mod K) <= inject_Z (K + -1))
            by (rewrite <- Zle_Qle; lia).
          rewrite inject_Z_plus in B0. change (inject_Z (-1)) with (-1) in B0. lra. }
        assert (X : (inject_Z K - 1) * Binary64.pow2 e == 1 - Binary64.pow2 e).
        { rewrite PI. field. lra. }
        rewrite <- X. apply Qmult_le_compat_r; [exact B | lra].
      * apply Qle_trans with (inject_Z (2 ^ 53) * Binary64.pow2 (-54)).
        -- apply Qle_trans with (inject_Z (2 ^ 53) * Binary64.pow2 e).
           ++ apply Qmult_le_compat_r; [rewrite <- Zle_Qle; lia | lra].
           ++ apply Qmult_le_l; [reflexivity | apply pow2_le; lia].
        -- vm_compute. discriminate.
Qed.

(** The thousandths of a fractional part: the product is rounded once,
    so the digits are those of the exact product or one more, and they
    never reach 1000. *)
Lemma millis_of_frac (f : Q) :
  0 <= f -> f <= 1 - Binary64.pow2 (-53) ->
  let ms := Py.int (Binary64.fl (f * 1000)) in
  (Qfloor (f * 1000) <= ms <= Qfloor (f * 1000) + 1)%Z /\ (0 <= ms < 1000)%Z.
Proof.
  intros H0 H1 ms.
  assert (P : 0 <= Binary64.fl (f * 1000)) by (apply fl_nonneg; lra).
  assert (Ems : ms = Qfloor (Binary64.fl (f * 1000))) by (unfold ms; now apply Py_int_nonneg).
  set (n := Qfloor (f * 1000)).
  assert (Hn : (0 <= n < 1000)%Z).
  { unfold n. split.
    - change 0%Z with (Qfloor 0). apply Qfloor_resp_le. lra.
    - rewrite Zlt_Qlt. eapply Qle_lt_trans; [apply Qfloor_le|].
      pose proof (pow2_pos (-53)). change (inject_Z 1000) with 1000. lra. }
  assert (L : inject_Z n <= Binary64.fl (f * 1000)).
  { rewrite <- (fl_Z n) by lia. apply fl_mono. apply Qfloor_le. }
  assert (U : Binary64.fl (f * 1000) <= inject_Z (n + 1)).
  { rewrite <- (fl_Z (n + 1)) by lia. apply fl_mono.
    apply Qlt_le_weak, Qlt_floor. }
  assert (T : Binary64.fl (f * 1000) < 1000).
  { apply Qle_lt_trans with (Binary64.fl ((1 - Binary64.pow2 (-53)) * 1000)).
    - apply fl_mono. lra.
    - vm_compute. reflexivity. }
  rewrite Ems. split.
  - split.
    + rewrite <- (Qfloor_Z n). now apply Qfloor_resp_le.
    + rewrite <- (Qfloor_Z (n + 1)). now apply Qfloor_resp_le.
  - split.
    + change 0%Z with (Qfloor 0). now apply Qfloor_resp_le.
    + rewrite Zlt_Qlt. eapply Qle_lt_trans; [apply Qfloor_le | exact T].
Qed.



(** *** The fields of a double *)

Lemma Py_int_of_Z (x : Q) (z : Z) : x == inject_Z z -> (0 <= z)%Z -> Py.int x = z.
Proof.
  intros E Hz. rewrite Py_int_nonneg.
  - rewrite (Qfloor_comp _ _ E). apply Qfloor_Z.
  - rewrite E. now apply inject_Z_nonneg.
Qed.

Lemma hms_of_double (t : Q) :
  0 <= t -> t < inject_Z (2 ^ 53) -> Binary64.fl t == t ->
  let f := Binary64.hms_of t in
  let thousandths := Qfloor ((t - inject_Z (Qfloor t)) * 1000) in
  hms_hours f = (Qfloor t / 3600)%Z
  /\ hms_minutes f = (Qfloor t mod 3600 / 60)%Z
  /\ hms_seconds f = (Qfloor t mod 60)%Z
  /\ (thousandths <= hms_millis f <= thousandths + 1)%Z
  /\ (0 <= hms_millis f < 1000)%Z.
Proof.
  intros Ht Hlt Hd f thousandths.
  assert (HF : (0 <= Qfloor t)%Z).
  { change 0%Z with (Qfloor 0). now apply Qfloor_resp_le. }
  split; [|split; [|split]].
  - unfold f, Binary64.hms_of. cbn [hms_hours].
    apply Py_int_of_Z.
    + change 3600 with (inject_Z 3600).
      rewrite floordiv_nonneg by (assumption || lia).
      now rewrite Qfloor_div_Z by lia.
    + apply Z.div_pos; lia.
  - unfold f, Binary64.hms_of. cbn [hms_minutes].
    change 3600 with (inject_Z 3600). rewrite mod_nonneg by (assumption || lia).
    pose proof (Py_mod_nonneg t 3600 ltac:(lia)) as Hm.
    pose proof (Py_mod_floor t 3600 ltac:(lia)) as Hfl.
    assert (Hm53 : Py.mod_ t (inject_Z 3600) < inject_Z (2 ^ 53)).
    { eapply Qle_lt_trans; [|exact Hlt].
      unfold Py.mod_. 
      assert (0 <= inject_Z 3600 * inject_Z (Qfloor (t / inject_Z 3600))); [|lra].
      apply Qmult_le_0_compat; [discriminate|]. apply inject_Z_nonneg.
      change 0%Z with (Qfloor 0). apply Qfloor_resp_le.
      apply Qle_shift_div_l; [reflexivity | lra]. }
    apply Py_int_of_Z.
    + change 60 with (inject_Z 60).
      rewrite floordiv_nonneg by (assumption || lia).
      now rewrite Qfloor_div_Z, Hfl by lia.
    + apply Z.div_pos; [apply Z.mod_pos_bound|]; lia.
  - unfold f, Binary64.hms_of. cbn [hms_seconds].
    change 60 with (inject_Z 60). rewrite mod_nonneg by (assumption || lia).
    rewrite Py_int_nonneg by (apply Py_mod_nonneg; lia).
    apply Py_mod_floor. lia.
  - destruct (frac_of_double t Ht Hd) as [Ex Hb].
    assert (H0 : 0 <= t - inject_Z (Qfloor t)) by (pose proof (Qfloor_le t); lra).
    destruct (millis_of_frac _ H0 Hb) as [B1 B2].
    assert (E : hms_millis f = Py.int (Binary64.fl ((t - inject_Z (Qfloor t)) * 1000))).
    { unfold f, Binary64.hms_of, Py.floor. cbn [hms_millis].
      assert (P1 : 0 <= Binary64.fl
                         (Binary64.fl (t - inject_Z (Qfloor t)) * 1000)).
      { apply fl_nonneg. rewrite Ex. lra. }
      assert (P2 : 0 <= Binary64.fl ((t - inject_Z (Qfloor t)) * 1000))
        by (apply fl_nonneg; lra).
      rewrite !Py_int_nonneg by assumption.
      apply Qfloor_comp. now rewrite Ex. }
    rewrite E. split; assumption.
Qed.

(** *** Reading a timestamp back *)








(** *** The number of frames for the interval of the source *)





(** *** The sampling loop on doubles *)





(** *** The seek positions *)







(** X6.  The fields of a timestamp.  For a double [t] from 0 up to
    [2^53] the hours, minutes and seconds computed with [//] and [%]
    recompose its integral part: [hours*3600 + minutes*60 + seconds =
    floor(t)] with [0 <= minutes < 60] and [0 <= seconds < 60].  The
    milliseconds field lies between 0 and 999; it is the fractional part
    in thousandths rounded down, or one more than that where the product
    with 1000 rounds up to an integer. *)
Theorem timestamp_fields (t : Q) :
  0 <= t -> t < inject_Z (2 ^ 53) -> Binary64.fl t == t ->
  let f := Binary64.hms_of t in
  let thousandths := Qfloor ((t - inject_Z (Qfloor t)) * 1000) in
  (hms_hours f * 3600 + hms_minutes f * 60 + hms_seconds f = Qfloor t)%Z
  /\ (0 <= hms_hours f)%Z
  /\ (0 <= hms_minutes f < 60)%Z
  /\ (0 <= hms_seconds f < 60)%Z
  /\ (thousandths <= hms_millis f <= thousandths + 1)%Z
  /\ (0 <= hms_millis f < 1000)%Z.
Proof.
  intros Ht H53 Hd f thousandths.
  destruct (hms_of_double t Ht H53 Hd) as (Eh & Em & Es & Bms & Rms).
  fold f in Eh, Em, Es, Bms, Rms. fold thousandths in Bms.
  assert (HF : (0 <= Qfloor t)%Z).
  { change 0%Z with (Qfloor 0). now apply Qfloor_resp_le. }
  pose proof (Z.mod_pos_bound (Qfloor t) 60 ltac:(lia)) as B60.
  pose proof (Z.mod_pos_bound (Qfloor t) 3600 ltac:(lia)) as B3600.
  pose proof (Z.div_mod (Qfloor t) 3600 ltac:(lia)) as D1.
  pose proof (Z.div_mod (Qfloor t mod 3600) 60 ltac:(lia)) as D2.
  assert (M : ((Qfloor t mod 3600) mod 60 = Qfloor t mod 60)%Z).
  { symmetry. rewrite <- (Z.mod_mod_divide (Qfloor t) 3600 60); [reflexivity|].
    exists 60%Z. reflexivity. }
  rewrite Eh, Em, Es.
  split; [lia|]. split; [apply Z.div_pos; lia|].
  split; [split; [apply Z.div_pos; lia | apply Z.div_lt_upper_bound; lia]|].
  split; [lia|]. split; assumption.
Qed.

Lemma timestamp_fields_witness :
  (0 <= hms_millis (Binary64.hms_of (Binary64.fl (59936 # 1000))) < 1000)%Z.
Proof.
  exact (proj2 (proj2 (proj2 (proj2 (proj2
    (timestamp_fields (Binary64.fl (59936 # 1000))
       ltac:(vm_compute; discriminate) ltac:(vm_compute; reflexivity)
       ltac:(vm_compute; reflexivity))))))).
Defined.

(** *** A 23-second video *)




End Doubles.
